(** * EAN history search: a shallow embedding of [ean_history_search.py]

    The development follows the methods of [EANHistoryFinder]:
    [validate_ean], [analyze_content], [_process_url] and [search].

    Conventions.
    - A Python [str] is a list of characters; a character is a code point
      in U+0000..U+00FF, carried by [ascii] (read as Latin-1, which is
      where every pattern of the program lives).  [lit] injects a Rocq
      string literal.
    - A Python [int] is a [Z]; offsets produced by the regular-expression
      engine are [nat] and are injected with [Z.of_nat] where the program
      computes with them.
    - A call that may raise returns a [result]. *)

From Stdlib Require Import String Ascii List ZArith Bool Arith Lia Permutation.
Import ListNotations.

Set Implicit Arguments.

Local Open Scope Z_scope.

(** ** Python values *)

Definition pystr := list ascii.

Definition lit (s : string) : pystr := list_ascii_of_string s.

Definition len (s : pystr) : Z := Z.of_nat (length s).

Definition ord (c : ascii) : Z := Z.of_N (N_of_ascii c).

Definition chr (n : Z) : ascii := ascii_of_N (Z.to_N n).

Definition between (lo hi : Z) (c : ascii) : bool :=
  (lo <=? ord c) && (ord c <=? hi).

Definition pystr_eqb (a b : pystr) : bool :=
  if list_eq_dec ascii_dec a b then true else false.

Inductive exn := ValueError | IndexError.

Inductive result (A : Type) :=
| Ok (a : A)
| Raise (e : exn).

Arguments Ok {A} a.
Arguments Raise {A} e.

Definition bind {A B} (r : result A) (k : A -> result B) : result B :=
  match r with
  | Ok a => k a
  | Raise e => Raise e
  end.

Notation "x <- c ;; k" := (bind c (fun x => k))
  (at level 61, c at next level, right associativity).

(** ** Data model

    The dictionaries that the program passes around have fixed keys and
    are records here.  The [assessment] of a finding is one of six string
    constants of the program. *)

Inductive Assessment :=
| Historico       (* "Histórico" *)
| Actual          (* "Actual" *)
| Indeterminado   (* "Indeterminado" *)
| OFProduct
| Wayback
| Amazon.

Record Finding := {
  product_name : pystr;
  date_clue : pystr;
  assessment : Assessment;
  snippet : pystr;
  url : pystr
}.

Record SourceResult := {
  sr_url : pystr;
  findings : list Finding
}.

(** One entry of the list returned by [search_with_requests]. *)
Record Candidate := {
  title : pystr;
  link : pystr;
  cand_snippet : pystr
}.

(** The attributes of an [EANHistoryFinder].  [proxy_index] and
    [user_agent] (the header of the session) are rewritten by
    [get_next_proxy] and [rotate_user_agent] before each request. *)
Record EANHistoryFinder := {
  ean : pystr;
  results : list SourceResult;
  max_results : Z;
  lang : pystr;
  proxies : list pystr;
  proxy_index : Z;
  user_agent : pystr
}.

(** ** Character predicates of the Python runtime, on U+0000..U+00FF *)

(** [str.isdecimal] on one character: the ten ASCII digits. *)
Definition char_isdecimal (c : ascii) : bool := between 48 57 c.

(** [str.isdigit] on one character: the decimal digits and the
    superscripts U+00B2, U+00B3, U+00B9. *)
Definition char_isdigit (c : ascii) : bool :=
  char_isdecimal c || (ord c =? 178) || (ord c =? 179) || (ord c =? 185).

(** [str.isspace] on one character; also the class [\s] of [re]. *)
Definition char_isspace (c : ascii) : bool :=
  between 9 13 c || between 28 32 c || (ord c =? 133) || (ord c =? 160).

(** The class [\w] of [re]: alphanumeric characters and the underscore. *)
Definition char_isword (c : ascii) : bool :=
  between 48 57 c || between 65 90 c || (ord c =? 95) || between 97 122 c
  || (ord c =? 170) || between 178 179 c || (ord c =? 181)
  || between 185 186 c || between 188 190 c || between 192 214 c
  || between 216 246 c || between 248 255 c.

(** [str.lower] on one character. *)
Definition char_lower (c : ascii) : ascii :=
  if between 65 90 c || between 192 214 c || between 216 222 c
  then chr (ord c + 32) else c.

Definition lower (s : pystr) : pystr := map char_lower s.

(** [s.isdigit()]: every character is a digit and there is at least one. *)
Definition isdigit (s : pystr) : bool :=
  negb (Nat.eqb (length s) 0) && forallb char_isdigit s.

(** [int(c)] for a one-character string [c] in U+0000..U+00FF, where
    the decimal digits are [0]..[9]. *)
Definition int_of_char (c : ascii) : result Z :=
  if char_isdecimal c then Ok (ord c - 48) else Raise ValueError.

(** [s[i]] for [0 <= i]. *)
Definition str_index (s : pystr) (i : nat) : result ascii :=
  match nth_error s i with
  | Some c => Ok c
  | None => Raise IndexError
  end.

(** ** [validate_ean] *)

Definition valid_lengths : list Z := [8; 13; 14].

(** The body of [for i in range(12)], folded over the indices. *)
Fixpoint checksum_loop (code : pystr) (indices : list nat) (total : Z)
  : result Z :=
  match indices with
  | [] => Ok total
  | i :: rest =>
      c <- str_index code i ;;
      digit <- int_of_char c ;;
      checksum_loop code rest
        (total + (if Z.of_nat i mod 2 =? 0 then digit else digit * 3))
  end.

Definition validate_ean (self : EANHistoryFinder) : result bool :=
  if negb (isdigit (ean self)) then Ok false
  else if negb (existsb (Z.eqb (len (ean self))) valid_lengths) then Ok false
  else if len (ean self) =? 13 then
    total <- checksum_loop (ean self) (seq 0 12) 0 ;;
    let check_digit := (10 - total mod 10) mod 10 in
    c <- str_index (ean self) 12 ;;
    last_digit <- int_of_char c ;;
    Ok (check_digit =? last_digit)
  else Ok true.

(** The rule of the data model, in the words of the specification: a
    string of decimal digits of length 8, 13 or 14; weights 1 and 3
    alternate over the first twelve digits, starting with 1 at index 0,
    and the check digit is [(10 - sum mod 10) mod 10]. *)

Fixpoint weighted_sum_from (i : nat) (ds : list Z) : Z :=
  match ds with
  | [] => 0
  | d :: rest =>
      (if Nat.even i then 1 else 3) * d + weighted_sum_from (S i) rest
  end.

Definition spec_check_digit (first12 : list Z) : Z :=
  (10 - weighted_sum_from 0 first12 mod 10) mod 10.

(** The value of a decimal digit. *)
Definition digit_value (c : ascii) : Z := ord c - 48.

Definition digit_values (s : pystr) : option (list Z) :=
  if forallb char_isdecimal s then Some (map digit_value s) else None.

Definition spec_valid_code (code : pystr) : Prop :=
  exists ds,
    digit_values code = Some ds /\
    (len code = 8 \/ len code = 13 \/ len code = 14) /\
    (len code = 13 -> spec_check_digit (firstn 12 ds) = nth 12 ds 0).

(** The characters that [str.isdigit] admits and [int] refuses. *)
Definition char_issuperscript (c : ascii) : bool :=
  char_isdigit c && negb (char_isdecimal c).

(** ** String operations of the Python runtime *)

(** Source text is UTF-8: [u8] reads the two-byte sequences that encode
    U+0080..U+00FF back into one character, so that the patterns below can
    be written as they stand in the program. *)
Fixpoint utf8_decode (bs : list ascii) : pystr :=
  match bs with
  | [] => []
  | b :: rest =>
      match rest with
      | b2 :: rest' =>
          if ord b =? 194 then b2 :: utf8_decode rest'
          else if ord b =? 195 then
            chr (ord b2 + 64) :: utf8_decode rest'
          else b :: utf8_decode rest
      | [] => [b]
      end
  end.

Definition u8 (s : string) : pystr := utf8_decode (list_ascii_of_string s).

Fixpoint prefixb (p s : pystr) : bool :=
  match p, s with
  | [], _ => true
  | a :: p', b :: s' => Ascii.eqb a b && prefixb p' s'
  | _ :: _, [] => false
  end.

(** [sub in s]. *)
Fixpoint contains (sub s : pystr) : bool :=
  prefixb sub s ||
  match s with
  | [] => false
  | _ :: s' => contains sub s'
  end.

Fixpoint find_from (sub s : pystr) (i : nat) : option nat :=
  if prefixb sub s then Some i
  else match s with
       | [] => None
       | _ :: s' => find_from sub s' (S i)
       end.

(** [s.find(sub)]: the lowest index of an occurrence, or [-1]. *)
Definition str_find (s sub : pystr) : Z :=
  match find_from sub s 0 with
  | Some i => Z.of_nat i
  | None => -1
  end.

(** One bound of a slice, as Python normalises it against the length. *)
Definition slice_bound (n i : Z) : Z :=
  if i <? 0 then Z.max 0 (i + n) else Z.min i n.

(** [s[a:b]]. *)
Definition py_slice (s : pystr) (a b : Z) : pystr :=
  let a' := slice_bound (len s) a in
  let b' := slice_bound (len s) b in
  firstn (Z.to_nat (b' - a')) (skipn (Z.to_nat a') s).

Fixpoint lstrip (s : pystr) : pystr :=
  match s with
  | [] => []
  | c :: rest => if char_isspace c then lstrip rest else s
  end.

(** [s.strip()]. *)
Definition strip (s : pystr) : pystr := rev (lstrip (rev (lstrip s))).

(** ** The fragment of [re] that the program uses

    Every repetition in the program's patterns is over a one-character
    class, so [Rep] carries a class; the patterns have at most one
    capturing group, so a match records group 1 only. *)

Inductive cs_item :=
| CChar (c : ascii)
| CRange (lo hi : ascii)
| CSpace
| CDigit.

Record charset := { cs_negate : bool; cs_items : list cs_item }.

Inductive regex :=
| Empty
| Lit (s : pystr)
| In1 (cs : charset)
| Rep (cs : charset) (lo : nat) (hi : option nat) (greedy : bool)
| Seq (a b : regex)
| Alt (a b : regex)
| Group (r : regex)
| AtBeginning
| LookBehind (cs : charset)
| WordBoundary.

Record Match := { m_start : nat; m_end : nat; m_group1 : option (nat * nat) }.

(** The characters from [lo] to [hi], both included. *)
Definition char_range (lo hi : ascii) : list ascii :=
  map (fun k => chr (ord lo + Z.of_nat k))
    (seq 0 (Z.to_nat (ord hi - ord lo + 1))).

Local Open Scope nat_scope.

Section Engine.

(** [re.IGNORECASE] *)
Variable ignorecase : bool.

Definition fold_case (c : ascii) : ascii :=
  if ignorecase then char_lower c else c.

(** A class item against a character that is already case-folded: under
    [IGNORECASE] the compiler folds the members of the class. *)
Definition item_matches (c' : ascii) (it : cs_item) : bool :=
  match it with
  | CChar p => Ascii.eqb c' (fold_case p)
  | CRange lo hi =>
      existsb (fun c => Ascii.eqb c' (fold_case c)) (char_range lo hi)
  | CSpace => char_isspace c'
  | CDigit => char_isdecimal c'
  end.

Definition in_charset (cs : charset) (c : ascii) : bool :=
  xorb (cs_negate cs) (existsb (item_matches (fold_case c)) (cs_items cs)).

Fixpoint lit_prefix (p s : pystr) : bool :=
  match p, s with
  | [], _ => true
  | a :: p', b :: s' =>
      Ascii.eqb (fold_case b) (fold_case a) && lit_prefix p' s'
  | _ :: _, [] => false
  end.

(** How many leading characters of [s] are in the class, at most [hi]. *)
Fixpoint count_run (cs : charset) (hi : option nat) (s : pystr) : nat :=
  match hi with
  | Some 0 => 0
  | _ =>
      match s with
      | [] => 0
      | c :: rest =>
          if in_charset cs c
          then S (count_run cs (option_map pred hi) rest)
          else 0
      end
  end.

Variable txt : pystr.

Definition word_at (i : nat) : bool :=
  match nth_error txt i with
  | Some c => char_isword c
  | None => false
  end.

Definition at_boundary (i : nat) : bool :=
  xorb (match i with 0 => false | S j => word_at j end) (word_at i).

(** [matches r i g]: the ways [r] matches at offset [i], in the order in
    which the backtracking matcher finds them; each gives the offset
    after the match and the span of group 1. *)
Fixpoint matches (r : regex) (i : nat) (g : option (nat * nat))
  : list (nat * option (nat * nat)) :=
  match r with
  | Empty => [(i, g)]
  | Lit p =>
      if lit_prefix p (skipn i txt) then [(i + length p, g)] else []
  | In1 cs =>
      match nth_error txt i with
      | Some c => if in_charset cs c then [(S i, g)] else []
      | None => []
      end
  | Rep cs lo hi greedy =>
      let n := count_run cs hi (skipn i txt) in
      if n <? lo then []
      else
        let ends := map (fun k => (i + k, g)) (seq lo (S n - lo)) in
        if greedy then rev ends else ends
  | Seq a b =>
      flat_map (fun jg => matches b (fst jg) (snd jg)) (matches a i g)
  | Alt a b => matches a i g ++ matches b i g
  | Group r' =>
      map (fun jg => (fst jg, Some (i, fst jg))) (matches r' i g)
  | AtBeginning => if i =? 0 then [(i, g)] else []
  | LookBehind cs =>
      match i with
      | 0 => []
      | S j =>
          match nth_error txt j with
          | Some c => if in_charset cs c then [(i, g)] else []
          | None => []
          end
      end
  | WordBoundary => if at_boundary i then [(i, g)] else []
  end.

Definition mk_match (i : nat) (jg : nat * option (nat * nat)) : Match :=
  {| m_start := i; m_end := fst jg; m_group1 := snd jg |}.

(** The scan of [re.search]: offsets [i], [i+1], ... ([k] of them). *)
Fixpoint search_scan (r : regex) (k i : nat) : option Match :=
  match k with
  | 0 => None
  | S k' =>
      match matches r i None with
      | jg :: _ => Some (mk_match i jg)
      | [] => search_scan r k' (S i)
      end
  end.

Definition re_search (r : regex) : option Match :=
  search_scan r (S (length txt)) 0.

(** The scan of [finditer] and [sub]: [k] offsets from [i] remain and
    the previous match ended at [p].  The next match starts where the
    previous one ended; after an empty match the matcher must advance,
    so it retries the same offset for a non-empty match. *)
Fixpoint iter_scan (r : regex) (k i p : nat) : list Match :=
  match k with
  | 0 => []
  | S k' =>
      if i <? p then iter_scan r k' (S i) p
      else
        match matches r i None with
        | [] => iter_scan r k' (S i) p
        | jg :: _ =>
            if fst jg =? i then
              match filter (fun jg' => negb (fst jg' =? i))
                      (matches r i None) with
              | [] => mk_match i jg :: iter_scan r k' (S i) i
              | jg' :: _ =>
                  mk_match i jg :: mk_match i jg'
                    :: iter_scan r k' (S i) (fst jg')
              end
            else mk_match i jg :: iter_scan r k' (S i) (fst jg)
        end
  end.

Definition finditer (r : regex) : list Match :=
  iter_scan r (S (length txt)) 0 0.

Definition substr (s e : nat) : pystr := firstn (e - s) (skipn s txt).

(** [match.group(0)] *)
Definition group0 (mt : Match) : pystr := substr (m_start mt) (m_end mt).

(** [match.group(1)].  In every pattern of the program that has a group,
    the group lies on every path through the pattern, so it is set in
    every match (lemma [group1_set]). *)
Definition group1 (mt : Match) : pystr :=
  match m_group1 mt with
  | Some (s, e) => substr s e
  | None => []
  end.

(** [re.sub(r, repl, txt)] for a replacement without group references. *)
Fixpoint sub_pieces (repl : pystr) (ms : list Match) (pos : nat) : pystr :=
  match ms with
  | [] => skipn pos txt
  | mt :: rest =>
      substr pos (m_start mt) ++ repl ++ sub_pieces repl rest (m_end mt)
  end.

Definition re_sub (r : regex) (repl : pystr) : pystr :=
  sub_pieces repl (finditer r) 0.

End Engine.

(** The number of capturing groups of a pattern: [match.groups()] is
    non-empty exactly when the pattern has one. *)
Fixpoint ngroups (r : regex) : nat :=
  match r with
  | Seq a b | Alt a b => ngroups a + ngroups b
  | Group r' => S (ngroups r')
  | _ => 0
  end.

Local Open Scope Z_scope.

(** ** The patterns of [analyze_content] *)

Definition cls (items : list cs_item) : charset :=
  {| cs_negate := false; cs_items := items |}.

Definition ncls (items : list cs_item) : charset :=
  {| cs_negate := true; cs_items := items |}.

Definition newline : ascii := chr 10.

(** [[\s:-]] *)
Definition space_colon_dash := cls [CSpace; CChar ":"; CChar "-"].
(** [[\s:]] *)
Definition space_colon := cls [CSpace; CChar ":"].
(** [[\s,]] *)
Definition space_comma := cls [CSpace; CChar ","].
(** [[^\n\.]] *)
Definition not_newline_dot := ncls [CChar newline; CChar "."].
(** [[\n\.]] *)
Definition newline_dot := cls [CChar newline; CChar "."].
(** [[A-Z]] *)
Definition upper_letter := cls [CRange "A" "Z"].
(** [[^a-z\n\.]] *)
Definition not_lower_newline_dot :=
  ncls [CRange "a" "z"; CChar newline; CChar "."].
(** [\d] *)
Definition digit := cls [CDigit].
(** [[/-]] *)
Definition slash_dash := cls [CChar "/"; CChar "-"].
(** [[^>]] *)
Definition not_gt := ncls [CChar ">"].
(** [.] under [re.DOTALL] *)
Definition any_char := ncls [].
(** [\s] *)
Definition space := cls [CSpace].

(** [(?:w1|w2|...)] *)
Fixpoint any_of (ws : list pystr) : regex :=
  match ws with
  | [] => In1 (cls [])
  | [w] => Lit w
  | w :: rest => Alt (Lit w) (any_of rest)
  end.

(** [(?:w1|w2|...)[sep]+(body)] *)
Definition labelled (ws : list pystr) (sep : charset) (body : regex) : regex :=
  Seq (any_of ws) (Seq (Rep sep 1 None true) (Group body)).

(** [cs*], [cs{n}], [cs{lo,hi}] *)
Definition star (cs : charset) : regex := Rep cs 0 None true.
Definition exactly (n : nat) (cs : charset) : regex := Rep cs n (Some n) true.
Definition from_to (lo hi : nat) (cs : charset) : regex :=
  Rep cs lo (Some hi) true.

(** [re.escape(code)] is the literal [code]. *)
Definition ean_patterns (code : pystr) : list regex :=
  [ Seq WordBoundary (Seq (Lit code) WordBoundary);
    Seq (Lit (u8 "EAN")) (Seq (star space_colon_dash) (Lit code));
    Seq (Lit (u8 "código")) (Seq (star space_colon_dash) (Lit code));
    Seq (Lit (u8 "barcode")) (Seq (star space_colon_dash) (Lit code));
    Seq (Lit (u8 "UPC")) (Seq (star space_colon_dash) (Lit code)) ].

(** [(?:^|(?<=[\n\.]))] *)
Definition line_start : regex := Alt AtBeginning (LookBehind newline_dot).

Definition product_patterns : list regex :=
  [ labelled [u8 "producto"; u8 "artículo"; u8 "item"; u8 "product"; u8 "item"]
      space_colon (from_to 5 50 not_newline_dot);
    labelled [u8 "nombre"; u8 "título"; u8 "name"; u8 "title"]
      space_colon (from_to 5 50 not_newline_dot);
    labelled [u8 "modelo"; u8 "referencia"; u8 "model"; u8 "reference"]
      space_colon (from_to 5 50 not_newline_dot);
    labelled [u8 "descripción"; u8 "description"]
      space_colon (from_to 5 50 not_newline_dot);
    Seq line_start
      (Group (Seq (In1 upper_letter) (from_to 5 50 not_newline_dot)));
    Seq line_start (Group (from_to 5 50 not_lower_newline_dot)) ].

(** [<title[^>]*>(.*?)</title>] *)
Definition title_pattern : regex :=
  Seq (Lit (u8 "<title"))
    (Seq (star not_gt)
       (Seq (Lit (u8 ">"))
          (Seq (Group (Rep any_char 0 None false)) (Lit (u8 "</title>"))))).

Definition date_patterns : list regex :=
  [ labelled [u8 "año"; u8 "modelo"; u8 "year"; u8 "model"]
      space_colon (exactly 4 digit);
    labelled [u8 "versión"; u8 "edición"; u8 "version"; u8 "edition"]
      space_colon (from_to 5 30 not_newline_dot);
    any_of [u8 "descatalogado"; u8 "discontinuado"; u8 "obsoleto";
            u8 "discontinued"; u8 "obsolete"];
    any_of [u8 "anterior"; u8 "previo"; u8 "antiguo"; u8 "previous";
            u8 "old"; u8 "former"];
    labelled [u8 "desde"; u8 "hasta"; u8 "entre"; u8 "from"; u8 "to";
              u8 "between"]
      space_colon (exactly 4 digit);
    Group (Seq (from_to 1 2 digit)
             (Seq (In1 slash_dash)
                (Seq (from_to 1 2 digit)
                   (Seq (In1 slash_dash) (from_to 2 4 digit)))));
    Group (Seq (exactly 4 digit)
             (Seq (In1 slash_dash)
                (Seq (from_to 1 2 digit)
                   (Seq (In1 slash_dash) (from_to 1 2 digit)))));
    labelled [u8 "enero"; u8 "febrero"; u8 "marzo"; u8 "abril"; u8 "mayo";
              u8 "junio"; u8 "julio"; u8 "agosto"; u8 "septiembre";
              u8 "octubre"; u8 "noviembre"; u8 "diciembre"]
      space_comma (exactly 4 digit);
    labelled [u8 "january"; u8 "february"; u8 "march"; u8 "april"; u8 "may";
              u8 "june"; u8 "july"; u8 "august"; u8 "september";
              u8 "october"; u8 "november"; u8 "december"]
      space_comma (exactly 4 digit) ].

Definition historical_indicators : list regex :=
  [ any_of [u8 "descatalogado"; u8 "discontinuado"; u8 "obsoleto";
            u8 "discontinued"; u8 "obsolete"];
    any_of [u8 "ya no"; u8 "no disponible"; u8 "not available";
            u8 "no longer"];
    any_of [u8 "versión anterior"; u8 "modelo antiguo";
            u8 "previous version"; u8 "old model"];
    any_of [u8 "reemplazado por"; u8 "sustituido por"; u8 "replaced by";
            u8 "substituted by"];
    any_of [u8 "histórico"; u8 "historia"; u8 "pasado"; u8 "historic";
            u8 "history"; u8 "past"];
    any_of [u8 "fue"; u8 "era"; u8 "was"; u8 "were"];
    any_of [u8 "antiguo"; u8 "antigüedad"; u8 "antique"; u8 "vintage"];
    Seq (any_of [u8 "colección"; u8 "collection"])
      (Seq (Lit (u8 " ")) (any_of [u8 "pasada"; u8 "anterior"; u8 "old"])) ].

Definition current_indicators : list regex :=
  [ any_of [u8 "nuevo"; u8 "actual"; u8 "vigente"; u8 "new"; u8 "current"];
    any_of [u8 "disponible"; u8 "en stock"; u8 "available"; u8 "in stock"];
    any_of [u8 "versión actual"; u8 "último modelo"; u8 "current version";
            u8 "latest model"];
    any_of [u8 "reciente"; u8 "recién"; u8 "recent"; u8 "recently"];
    any_of [u8 "comprar"; u8 "compra ahora"; u8 "buy"; u8 "buy now"];
    any_of [u8 "añadir al carrito"; u8 "add to cart"];
    any_of [u8 "precio actual"; u8 "current price"];
    Seq (any_of [u8 "envío"; u8 "shipping"])
      (Seq (Lit (u8 " ")) (any_of [u8 "gratis"; u8 "gratuito"; u8 "free"])) ].

(** ** [analyze_content] *)

Definition no_identificado : pystr := u8 "No identificado".

(** [start] and [end] of the window around a mention. *)
Definition window_start (mt : Match) : Z :=
  Z.max 0 (Z.of_nat (m_start mt) - 400).

Definition window_end (content : pystr) (mt : Match) : Z :=
  Z.min (len content) (Z.of_nat (m_end mt) + 400).

Definition window (content : pystr) (mt : Match) : pystr :=
  py_slice content (window_start mt) (window_end content mt).

(** [for pattern in patterns: m = re.search(pattern, context,
    re.IGNORECASE); if m: ...; break] *)
Fixpoint first_match (patterns : list regex) (context : pystr)
  : option (regex * Match) :=
  match patterns with
  | [] => None
  | p :: rest =>
      match re_search true context p with
      | Some mt => Some (p, mt)
      | None => first_match rest context
      end
  end.

Definition find_product_name (content context : pystr) : pystr :=
  let name :=
    match first_match product_patterns context with
    | Some (_, mt) => strip (group1 context mt)
    | None => no_identificado
    end in
  if pystr_eqb name no_identificado && contains (u8 "title") (lower content)
  then
    match re_search true content title_pattern with
    | Some tm => strip (group1 content tm)
    | None => name
    end
  else name.

Definition find_date_clue (context : pystr) : pystr :=
  match first_match date_patterns context with
  | Some (p, mt) =>
      if (0 <? ngroups p)%nat then strip (group1 context mt)
      else strip (group0 context mt)
  | None => no_identificado
  end.

(** [for pattern in indicators: if re.search(...): score += 1] *)
Definition score (indicators : list regex) (context : pystr) : Z :=
  fold_left
    (fun s p => match re_search true context p with
                | Some _ => s + 1
                | None => s
                end)
    indicators 0.

Definition historical_score : pystr -> Z := score historical_indicators.
Definition current_score : pystr -> Z := score current_indicators.

Definition assess (context : pystr) : Assessment :=
  if historical_score context >? current_score context then Historico
  else if current_score context >? historical_score context then Actual
  else Indeterminado.

(** [re.sub(r'\s+', ' ', context).strip()] *)
Definition clean_snippet (context : pystr) : pystr :=
  strip (re_sub false context (Rep space 1 None true) (u8 " ")).

(** The dictionary built for one mention. *)
Definition mention_finding (content source : pystr) (mt : Match) : Finding :=
  let context := window content mt in
  {| product_name := find_product_name content context;
     date_clue := find_date_clue context;
     assessment := assess context;
     snippet := clean_snippet context;
     url := source |}.

(** The body of [for match in ean_matches]: the finding is appended
    unless an existing one has the same snippet. *)
Definition add_mention (content source : pystr) (found : list Finding)
  (mt : Match) : list Finding :=
  let f := mention_finding content source mt in
  if existsb (fun existing => pystr_eqb (snippet existing) (snippet f)) found
  then found
  else found ++ [f].

(** Every mention, in the order of the two nested loops. *)
Definition mentions (code content : pystr) : list Match :=
  flat_map (finditer false content) (ean_patterns code).

Definition pattern_findings (code content source : pystr) : list Finding :=
  fold_left
    (fun found pattern =>
       fold_left (add_mention content source)
         (finditer false content pattern) found)
    (ean_patterns code) [].

(** The window of the fallback, around [ean_pos = content.find(ean)]. *)
Definition fallback_start (ean_pos : Z) : Z := Z.max 0 (ean_pos - 400).

Definition fallback_end (content : pystr) (ean_pos : Z) : Z :=
  Z.min (len content) (ean_pos + 400).

Definition fallback_finding (code content source : pystr) : Finding :=
  let ean_pos := str_find content code in
  let context :=
    py_slice content (fallback_start ean_pos) (fallback_end content ean_pos) in
  {| product_name :=
       match re_search true content title_pattern with
       | Some tm => strip (group1 content tm)
       | None => no_identificado
       end;
     date_clue := no_identificado;
     assessment := Indeterminado;
     snippet := clean_snippet context;
     url := source |}.

Definition is_empty {A} (l : list A) : bool :=
  match l with
  | [] => true
  | _ :: _ => false
  end.

Definition all_findings (code content source : pystr) : list Finding :=
  let found := pattern_findings code content source in
  if is_empty found && contains code content
  then found ++ [fallback_finding code content source]
  else found.

Definition analyze_content (self : EANHistoryFinder) (content source : pystr)
  : option SourceResult :=
  if is_empty content then None
  else
    let found := all_findings (ean self) content source in
    if is_empty found then None
    else Some {| sr_url := source; findings := found |}.

(** ** [search]

    What comes from the network is a parameter of the model: the result
    of each of the three direct lookups, the candidates returned for a
    query ([None] when the call raises), and the text of a page.  The
    order in which [concurrent.futures.as_completed] yields the futures
    of a list is a parameter too. *)

Inductive Task :=
| TaskOpenFoodFacts
| TaskWayback
| TaskAmazon
| TaskProcessUrl (target : pystr).

Definition search_terms (self : EANHistoryFinder) : list pystr :=
  let e := ean self in
  [ e;
    e ++ u8 " producto";
    e ++ u8 " código de barras";
    e ++ u8 " barcode";
    e ++ u8 " upc";
    e ++ u8 " histórico";
    e ++ u8 " descatalogado";
    e ++ u8 " versión anterior";
    u8 "código de barras " ++ e;
    u8 "barcode " ++ e;
    u8 "EAN " ++ e ].

Section Search.

Variable search_openfoodfacts : option SourceResult.
Variable search_wayback_machine : option SourceResult.
Variable search_amazon : option SourceResult.
Variable search_with_requests : pystr -> option (list Candidate).
Variable extract_content_from_url : pystr -> pystr.

Variable completed_queries : list pystr -> list pystr.
Variable completed_tasks : list Task -> list Task.

Definition _process_url (self : EANHistoryFinder) (target : pystr)
  : option SourceResult :=
  let content := extract_content_from_url target in
  if negb (is_empty content) then analyze_content self content target
  else None.

Definition run_task (self : EANHistoryFinder) (t : Task)
  : option SourceResult :=
  match t with
  | TaskOpenFoodFacts => search_openfoodfacts
  | TaskWayback => search_wayback_machine
  | TaskAmazon => search_amazon
  | TaskProcessUrl target => _process_url self target
  end.

(** The tasks submitted when the query [term] completes:
    [for result in results[:3]], skipping an empty link. *)
Definition spawned (term : pystr) : list Task :=
  match search_with_requests term with
  | Some found =>
      flat_map
        (fun c => if is_empty (link c) then [] else [TaskProcessUrl (link c)])
        (firstn 3 found)
  | None => []
  end.

(** [if analysis and analysis.get("findings"): all_results.append] *)
Definition keep (analysis : option SourceResult) : list SourceResult :=
  match analysis with
  | Some a => if is_empty (findings a) then [] else [a]
  | None => []
  end.

Definition search (self : EANHistoryFinder) : result (list SourceResult) :=
  valid <- validate_ean self ;;
  if negb valid then Ok []
  else
    let all_futures := [TaskOpenFoodFacts; TaskWayback; TaskAmazon] in
    let url_analysis_futures :=
      flat_map spawned (completed_queries (search_terms self)) in
    let all_futures := all_futures ++ url_analysis_futures in
    Ok (flat_map (fun t => keep (run_task self t))
          (completed_tasks all_futures)).

(** The tasks of a run, in the order in which they would be submitted
    if the queries completed in the order of their submission. *)
Definition submitted_tasks (self : EANHistoryFinder) : list Task :=
  [TaskOpenFoodFacts; TaskWayback; TaskAmazon]
  ++ flat_map spawned (search_terms self).

End Search.

(** ** Syntactic checks on patterns, used by the proofs *)

(** Every match of [r] contains a match of the literal [w]. *)
Fixpoint needs_literal (w : pystr) (r : regex) : bool :=
  match r with
  | Lit s => pystr_eqb s w
  | Seq a b => needs_literal w a || needs_literal w b
  | Alt a b => needs_literal w a && needs_literal w b
  | Group r' => needs_literal w r'
  | _ => false
  end.

(** Every match of [r] sets group 1. *)
Fixpoint always_groups (r : regex) : bool :=
  match r with
  | Seq a b => always_groups a || always_groups b
  | Alt a b => always_groups a && always_groups b
  | Group _ => true
  | _ => false
  end.

(** The number of patterns of a list that are found in the window. *)
Definition matching_count (indicators : list regex) (context : pystr) : Z :=
  Z.of_nat
    (length
       (filter
          (fun p => match re_search true context p with
                    | Some _ => true
                    | None => false
                    end)
          indicators)).

(** The rule of the classification, in the words of the specification:
    a strict comparison of the two counts of matching indicator
    patterns. *)
Definition by_strict_comparison (a : Assessment) (context : pystr) : Prop :=
  let h := matching_count historical_indicators context in
  let c := matching_count current_indicators context in
  (a = Historico <-> h > c) /\
  (a = Actual <-> c > h) /\
  (a = Indeterminado <-> h = c).

(** [sub] occurs in [s] at offset [i]. *)
Definition occurs_at (sub s : pystr) (i : nat) : Prop :=
  exists pre post, s = pre ++ sub ++ post /\ length pre = i.

Definition occurs (sub s : pystr) : Prop := exists i, occurs_at sub s i.

(** The windows that [analyze_content] slices out of the content: one
    for each mention and, when there is no mention and the code stands
    in the content, the one of the fallback. *)
Inductive computed_window (code content : pystr) : Z -> Z -> Prop :=
| MentionWindow (mt : Match) :
    In mt (mentions code content) ->
    computed_window code content (window_start mt) (window_end content mt)
| FallbackWindow :
    mentions code content = [] ->
    contains code content = true ->
    computed_window code content
      (fallback_start (str_find content code))
      (fallback_end content (str_find content code)).

Definition pystr_dec : forall a b : pystr, {a = b} + {a <> b} :=
  list_eq_dec ascii_dec.

(** ** Scenarios *)

(** [EANHistoryFinder(code)] with the defaults of [__init__], the header
    of the session holding [agent]. *)
Definition new_finder (code agent : pystr) : EANHistoryFinder :=
  {| ean := code;
     results := [];
     max_results := 10;
     lang := u8 "es";
     proxies := [];
     proxy_index := 0;
     user_agent := agent |}.

Definition scenario_code : pystr := u8 "1234567890123".

Definition scenario_content : pystr :=
  u8 "...EAN 1234567890123 fue descatalogado en 2015...".

Definition scenario_url : pystr := u8 "https://example.org/producto".

Definition scenario_finder : EANHistoryFinder :=
  new_finder scenario_code (u8 "Mozilla/5.0").

(** The code of the second scenario of the specification. *)
Definition scenario_code_8 : pystr := u8 "1234567890128".

(** A page where the code stands without a word boundary or a label. *)
Definition glued_content : pystr := u8 "ref1234567890123x".

(** Digits for [str.isdigit] that [int] does not read: eight and
    thirteen times the superscript two, U+00B2. *)
Definition superscript_code_8 : pystr := repeat (chr 178) 8.

Definition superscript_code_13 : pystr := repeat (chr 178) 13.

(** A page where the code stands without a word boundary or a label,
    among words of discontinuation. *)
Definition glued_discontinued_content : pystr :=
  u8 "ref1234567890123x fue descatalogado, ya no disponible".

(** A page that names the code twice, far apart, between runs of white
    space. *)
Definition spaced_content : pystr :=
  u8 "EAN 1234567890123" ++ repeat (chr 10) 210 ++ repeat (chr 32) 210
  ++ u8 "EAN 1234567890123".

Definition spaced_first : Match :=
  {| m_start := 4; m_end := 17; m_group1 := None |}.

Definition spaced_second : Match :=
  {| m_start := 441; m_end := 454; m_group1 := None |}.

(** A network where nothing is found: no direct lookup answers, every
    query returns no candidate, every page is empty. *)
Definition search_nothing_found
  (completed_queries : list pystr -> list pystr)
  (completed_tasks : list Task -> list Task)
  : EANHistoryFinder -> result (list SourceResult) :=
  search None None None (fun _ => Some []) (fun _ => [])
    completed_queries completed_tasks.

(** A network with one product record and one page for every query. *)
Definition sample_record : SourceResult :=
  {| sr_url := u8 "https://es.openfoodfacts.org/product/1234567890128";
     findings :=
       [ {| product_name := u8 "Leche entera";
            date_clue := u8 "2019-03-12";
            assessment := OFProduct;
            snippet := u8 "Leche";
            url := u8 "https://es.openfoodfacts.org/product/1234567890128" |} ] |}.

Definition sample_candidates (query : pystr) : option (list Candidate) :=
  Some [ {| title := query; link := scenario_url; cand_snippet := [] |};
         {| title := query; link := []; cand_snippet := [] |} ].

Definition sample_page (target : pystr) : pystr :=
  u8 "EAN 1234567890128".

Definition search_sample
  (completed_queries : list pystr -> list pystr)
  (completed_tasks : list Task -> list Task)
  : EANHistoryFinder -> result (list SourceResult) :=
  search (Some sample_record) None None sample_candidates sample_page
    completed_queries completed_tasks.

(** * The rest of the program

    The functions around [analyze_content] and [search]: the retry
    wrapper, the proxy rotation, the post-processing of the search
    results, the cleaning of the text of a page, and the report. *)

(** ** [retry_on_exception]

    The decorated function is called once per attempt; what its [k]-th
    call does is given by [func k]: it returns a value or raises.
    [except Exception] catches the exceptions for which [is_exception]
    holds (the instances of [Exception]); any other one, such as
    [KeyboardInterrupt] or [SystemExit], leaves the wrapper at once.
    A value of type [A] is a Python value and [none] is [None], which the
    wrapper returns when it falls out of the loop.  A run of the wrapper
    reports its outcome, how many times it called the function, and the
    delays it slept, in order. *)

Inductive outcome (A E : Type) :=
| Returns (a : A)
| Raises (e : E).

Arguments Returns {A E} a.
Arguments Raises {A E} e.

Record RetryRun (A E : Type) := {
  rr_outcome : outcome A E;
  rr_calls : nat;
  rr_sleeps : list Z
}.

(** The body of [for attempt in range(max_attempts)], from the attempts
    that remain. *)
Fixpoint retry_loop {A E} (none : A) (is_exception : E -> bool)
  (func : nat -> outcome A E) (max_attempts : Z)
  (attempts : list nat) (delay : Z) (calls : nat) (sleeps : list Z)
  : RetryRun A E :=
  match attempts with
  | [] =>
      {| rr_outcome := Returns none; rr_calls := calls; rr_sleeps := sleeps |}
  | attempt :: rest =>
      match func calls with
      | Returns a =>
          {| rr_outcome := Returns a;
             rr_calls := S calls;
             rr_sleeps := sleeps |}
      | Raises e =>
          if is_exception e then
            if Z.of_nat attempt =? max_attempts - 1
            then {| rr_outcome := Raises e;
                    rr_calls := S calls;
                    rr_sleeps := sleeps |}
            else retry_loop none is_exception func max_attempts rest
                   (delay * 2) (S calls) (sleeps ++ [delay])
          else {| rr_outcome := Raises e;
                  rr_calls := S calls;
                  rr_sleeps := sleeps |}
      end
  end.

(** [range(n)] *)
Definition py_range (n : Z) : list nat := seq 0 (Z.to_nat n).

Definition retry_on_exception {A E} (none : A) (is_exception : E -> bool)
  (max_attempts : Z) (func : nat -> outcome A E) : RetryRun A E :=
  retry_loop none is_exception func max_attempts (py_range max_attempts)
    1 0 [].

(** The exceptions of a sample run: the first two are instances of
    [Exception], the third is not. *)
Inductive sample_exn := ConnectionError | Timeout | KeyboardInterrupt.

Definition sample_is_exception (e : sample_exn) : bool :=
  match e with
  | KeyboardInterrupt => false
  | _ => true
  end.

(** A call raises an exception that the wrapper catches. *)
Definition caught {A E} (is_exception : E -> bool) (o : outcome A E) : Prop :=
  exists e, o = Raises e /\ is_exception e = true.

(** [sum] of a list of integers. *)
Definition py_sum (l : list Z) : Z := fold_right Z.add 0 l.

(** ** [get_next_proxy] *)

(** The dictionary [{"http": proxy, "https": proxy}]. *)
Record ProxyConfig := { http : pystr; https : pystr }.

(** [l[i]] for a list and an integer index, negative indices counting
    from the end. *)
Definition list_index {A} (l : list A) (i : Z) : result A :=
  let n := Z.of_nat (length l) in
  let j := if i <? 0 then i + n else i in
  if (j <? 0) || (n <=? j) then Raise IndexError
  else match nth_error l (Z.to_nat j) with
       | Some x => Ok x
       | None => Raise IndexError
       end.

Definition set_proxy_index (self : EANHistoryFinder) (i : Z)
  : EANHistoryFinder :=
  {| ean := ean self;
     results := results self;
     max_results := max_results self;
     lang := lang self;
     proxies := proxies self;
     proxy_index := i;
     user_agent := user_agent self |}.

(** The value returned and the finder after the call. *)
Definition get_next_proxy (self : EANHistoryFinder)
  : result (option ProxyConfig * EANHistoryFinder) :=
  if is_empty (proxies self) then Ok (None, self)
  else
    proxy <- list_index (proxies self)
               (proxy_index self mod Z.of_nat (length (proxies self))) ;;
    Ok (Some {| http := proxy; https := proxy |},
        set_proxy_index self (proxy_index self + 1)).

(** [k] calls in a row: the values returned, and the finder at the end. *)
Fixpoint next_proxies (k : nat) (self : EANHistoryFinder)
  : result (list (option ProxyConfig) * EANHistoryFinder) :=
  match k with
  | O => Ok ([], self)
  | S k' =>
      r <- get_next_proxy self ;;
      rs <- next_proxies k' (snd r) ;;
      Ok (fst r :: fst rs, snd rs)
  end.

(** The delays [1, 2, 4, ...] of [k] sleeps. *)
Definition backoff (k : nat) : list Z := map (fun i => 2 ^ Z.of_nat i) (seq 0 k).

(** What [get_next_proxy] returns for the proxy [p]. *)
Definition proxy_config (p : pystr) : option ProxyConfig :=
  Some {| http := p; https := p |}.

(** ** [search_with_requests]

    What a Google domain answers is a parameter: the request or the
    parsing raises, or a page comes back with a status code.  [parsed]
    holds, for each result element selected in the page, the title, link
    and snippet read from it, or [None] when reading it raises. *)

Inductive DomainResponse :=
| DomainRaises
| DomainPage (status_code : Z) (parsed : list (option Candidate)).

Definition google_domains (self : EANHistoryFinder) : list pystr :=
  [ u8 "https://www.google.com/search?hl=" ++ lang self;
    u8 "https://www.google.es/search?hl=" ++ lang self;
    u8 "https://www.google.com.mx/search?hl=" ++ lang self ].

(** [link and link.startswith("http") and "google" not in link] *)
Definition link_accepted (l : pystr) : bool :=
  negb (is_empty l) && prefixb (u8 "http") l
  && negb (contains (u8 "google") l).

(** [domain_results] after the loop over the result elements. *)
Definition domain_results (parsed : list (option Candidate))
  : list Candidate :=
  flat_map
    (fun entry =>
       match entry with
       | Some c => if link_accepted (link c) then [c] else []
       | None => []
       end)
    parsed.

(** [for domain in google_domains]: the results of the first domain that
    answers 200 with an accepted entry; the loop stops there. *)
Fixpoint first_domain_results (responses : list DomainResponse)
  : list Candidate :=
  match responses with
  | [] => []
  | DomainRaises :: rest => first_domain_results rest
  | DomainPage status_code parsed :: rest =>
      if status_code =? 200 then
        if is_empty (domain_results parsed)
        then first_domain_results rest
        else domain_results parsed
      else first_domain_results rest
  end.

(** [for result in results: if result["link"] not in seen_urls: ...] *)
Fixpoint unique_loop (found : list Candidate) (seen_urls : list pystr)
  (unique_results : list Candidate) : list Candidate :=
  match found with
  | [] => unique_results
  | r :: rest =>
      if existsb (pystr_eqb (link r)) seen_urls
      then unique_loop rest seen_urls unique_results
      else unique_loop rest (link r :: seen_urls) (unique_results ++ [r])
  end.

(** The body [_search], [respond] giving the answer of each domain. *)
Definition search_with_requests_body (self : EANHistoryFinder)
  (respond : pystr -> DomainResponse) : list Candidate :=
  unique_loop (first_domain_results (map respond (google_domains self)))
    [] [].

(** ** The text of a page: [extract_content_from_url] *)

(** The characters at which [str.splitlines] cuts. *)
Definition is_linebreak (c : ascii) : bool :=
  between 10 13 c || between 28 30 c || (ord c =? 133).

(** [s.splitlines()], [current] holding the line being read; a carriage
    return followed by a line feed is one boundary. *)
Fixpoint splitlines_from (s current : pystr) : list pystr :=
  match s with
  | [] => if is_empty current then [] else [current]
  | c :: rest =>
      if is_linebreak c then
        current ::
          match rest with
          | c2 :: rest2 =>
              if (ord c =? 13) && (ord c2 =? 10)
              then splitlines_from rest2 []
              else splitlines_from rest []
          | [] => splitlines_from rest []
          end
      else splitlines_from rest (current ++ [c])
  end.

Definition splitlines (s : pystr) : list pystr := splitlines_from s [].

Definition is_space_char (c : ascii) : bool := ord c =? 32.

(** [s.split("  ")], [current] holding the piece being read. *)
Fixpoint split_double_space_from (s current : pystr) : list pystr :=
  match s with
  | [] => [current]
  | c :: rest =>
      match rest with
      | c2 :: rest2 =>
          if is_space_char c && is_space_char c2
          then current :: split_double_space_from rest2 []
          else split_double_space_from rest (current ++ [c])
      | [] => split_double_space_from rest (current ++ [c])
      end
  end.

Definition split_double_space (s : pystr) : list pystr :=
  split_double_space_from s [].

(** [sep.join(parts)] *)
Fixpoint join (sep : pystr) (parts : list pystr) : pystr :=
  match parts with
  | [] => []
  | p :: rest =>
      match rest with
      | [] => p
      | _ :: _ => p ++ sep ++ join sep rest
      end
  end.

(** The chunks kept by [extract_content_from_url]: each line is
    stripped, split at double spaces, each piece stripped, and the empty
    pieces are dropped. *)
Definition text_chunks (text : pystr) : list pystr :=
  let lines := map strip (splitlines text) in
  let chunks :=
    flat_map (fun line => map strip (split_double_space line)) lines in
  filter (fun chunk => negb (is_empty chunk)) chunks.

Definition clean_text (text : pystr) : pystr :=
  join [newline] (text_chunks text).

(** What the request for a page gives: it raises, or a page comes back
    with a status code; [text] is [soup.get_text()] once the scripts and
    styles are taken out. *)
Inductive PageResponse :=
| PageRaises
| PageText (status_code : Z) (text : pystr).

Definition extract_content (response : PageResponse) : pystr :=
  match response with
  | PageRaises => []
  | PageText status_code text =>
      if status_code =? 200 then clean_text text else []
  end.

(** ** [format_results] and [save_results_to_csv] *)

(** The string that the program writes under ["assessment"]. *)
Definition assessment_name (a : Assessment) : pystr :=
  match a with
  | Historico => u8 "Histórico"
  | Actual => u8 "Actual"
  | Indeterminado => u8 "Indeterminado"
  | OFProduct => u8 "OFProduct"
  | Wayback => u8 "Wayback"
  | Amazon => u8 "Amazon"
  end.

Definition assessment_eqb (a b : Assessment) : bool :=
  match a, b with
  | Historico, Historico | Actual, Actual | Indeterminado, Indeterminado
  | OFProduct, OFProduct | Wayback, Wayback | Amazon, Amazon => true
  | _, _ => false
  end.

(** A dictionary from strings to lists of findings, as the list of its
    items in insertion order. *)
Definition Groups := list (pystr * list Finding).

(** [findings_by_assessment] before the loop. *)
Definition empty_groups : Groups :=
  [ (u8 "Histórico", []); (u8 "Actual", []); (u8 "Indeterminado", []);
    (u8 "OFProduct", []); (u8 "Wayback", []); (u8 "Amazon", []) ].

(** [d[key].append(finding)]; [None] stands for [KeyError]. *)
Fixpoint group_append (d : Groups) (key : pystr) (finding : Finding)
  : option Groups :=
  match d with
  | [] => None
  | (k, v) :: rest =>
      if pystr_eqb key k then Some ((k, v ++ [finding]) :: rest)
      else option_map (cons (k, v)) (group_append rest key finding)
  end.

(** [d[key]] *)
Fixpoint group_get (d : Groups) (key : pystr) : option (list Finding) :=
  match d with
  | [] => None
  | (k, v) :: rest =>
      if pystr_eqb key k then Some v else group_get rest key
  end.

(** The two nested loops of [format_results] over the results. *)
Fixpoint group_loop (all : list Finding) (d : Groups) : option Groups :=
  match all with
  | [] => Some d
  | finding :: rest =>
      match group_append d (assessment_name (assessment finding)) finding with
      | Some d' => group_loop rest d'
      | None => None
      end
  end.

Definition all_result_findings (found : list SourceResult) : list Finding :=
  flat_map findings found.

(** [sum(len(findings) for findings in d.values())] *)
Definition total_findings (d : Groups) : Z :=
  py_sum (map (fun kv => Z.of_nat (length (snd kv))) d).

(** What [format_results] reports: the notice that nothing was found,
    or the groups and the total of the summary. *)
Inductive Report :=
| NoResults
| Summary (findings_by_assessment : Groups) (total : Z).

(** [format_results], up to the text of the log lines; [None] stands
    for [KeyError]. *)
Definition format_results (found : list SourceResult) : option Report :=
  if is_empty found then Some NoResults
  else
    match group_loop (all_result_findings found) empty_groups with
    | Some d => Some (Summary d (total_findings d))
    | None => None
    end.

(** [sum(len(result["findings"]) for result in all_results)], the total
    that [search] logs. *)
Definition search_total (found : list SourceResult) : Z :=
  py_sum (map (fun r => Z.of_nat (length (findings r))) found).

(** One row of [csv_data]. *)
Record CsvRow := {
  csv_EAN : pystr;
  csv_URL : pystr;
  csv_Producto : pystr;
  csv_Pista_Temporal : pystr;
  csv_Evaluacion : pystr;
  csv_Fragmento : pystr
}.

Definition csv_row (self : EANHistoryFinder) (finding : Finding) : CsvRow :=
  {| csv_EAN := ean self;
     csv_URL := url finding;
     csv_Producto := product_name finding;
     csv_Pista_Temporal := date_clue finding;
     csv_Evaluacion := assessment_name (assessment finding);
     csv_Fragmento := snippet finding |}.

Definition csv_data (self : EANHistoryFinder) (found : list SourceResult)
  : list CsvRow :=
  flat_map (fun r => map (csv_row self) (findings r)) found.

(** [save_results_to_csv], up to the rows handed to the writer: there
    are none for an empty list of results, where the function returns
    before it names a file. *)
Definition save_results_to_csv (self : EANHistoryFinder)
  (found : list SourceResult) : option (list CsvRow) :=
  if is_empty found then None else Some (csv_data self found).

(** The six assessments, in the order of the keys of the report. *)
Definition all_assessments : list Assessment :=
  [Historico; Actual; Indeterminado; OFProduct; Wayback; Amazon].

(** The groups that hold the findings [g a] under the name of [a]. *)
Definition groups_of (g : Assessment -> list Finding) : Groups :=
  map (fun a => (assessment_name a, g a)) all_assessments.

(** The findings of one assessment, in order. *)
Definition with_assessment (a : Assessment) (all : list Finding)
  : list Finding :=
  filter (fun f => assessment_eqb (assessment f) a) all.

(** Two spaces, the separator of [split("  ")]. *)
Definition double_space : pystr := u8 "  ".

(** ** Predicates on strings, used by the proofs *)

(** A string without white space, and a string of white space only. *)
Definition spaceless (w : pystr) : Prop :=
  Forall (fun c => char_isspace c = false) w.

Definition blank (s : pystr) : Prop :=
  Forall (fun c => char_isspace c = true) s.

(** A string that does not begin with white space. *)
Definition starts_clean (s : pystr) : Prop :=
  match s with
  | [] => True
  | c :: _ => char_isspace c = false
  end.

(** A string without a line boundary. *)
Definition unbroken (s : pystr) : Prop :=
  Forall (fun c => is_linebreak c = false) s.

(** A chunk of the cleaned text: not empty, on one line, without white
    space at its ends and without two spaces in a row. *)
Definition clean_chunk (l : pystr) : Prop :=
  l <> [] /\ strip l = l /\ ~ occurs double_space l /\ unbroken l.

(** ** White space in a snippet *)

(** [\s+], the pattern of [clean_snippet]. *)
Definition whitespace_plus : regex := Rep space 1 None true.

(** The number of white space characters at the head of a string. *)
Fixpoint space_run (s : pystr) : nat :=
  match s with
  | [] => O
  | c :: rest => if char_isspace c then S (space_run rest) else O
  end.

(** A string in which each run of white space is replaced by one space;
    [in_run] tells that the character before was white space. *)
Fixpoint collapse_from (s : pystr) (in_run : bool) : pystr :=
  match s with
  | [] => []
  | c :: rest =>
      if char_isspace c then
        if in_run then collapse_from rest true
        else " "%char :: collapse_from rest true
      else c :: collapse_from rest false
  end.

Definition collapse (s : pystr) : pystr := collapse_from s false.

(** A snippet as [clean_snippet] leaves it: no white space at its ends,
    no white space but the space, no two spaces in a row. *)
Definition normalized (s : pystr) : Prop :=
  strip s = s /\
  ~ occurs double_space s /\
  Forall (fun c => char_isspace c = true -> c = " "%char) s.

(** * Properties *)

(** ** Strings *)

Lemma pystr_eqb_eq (a b : pystr) : pystr_eqb a b = true <-> a = b.
Proof.
  unfold pystr_eqb. destruct (list_eq_dec ascii_dec a b); split; congruence.
Qed.

Lemma pystr_eqb_refl (a : pystr) : pystr_eqb a a = true.
Proof. now apply pystr_eqb_eq. Qed.

Lemma prefixb_app (p s : pystr) :
  prefixb p s = true <-> exists post, s = p ++ post.
Proof.
  revert s. induction p as [|a p IH]; intros s; simpl.
  - split; [intros _; now exists s | reflexivity].
  - destruct s as [|b s].
    + split; [discriminate | intros [post H]; discriminate].
    + rewrite andb_true_iff, Ascii.eqb_eq, IH. split.
      * intros [-> [post ->]]. now exists post.
      * intros [post H]. injection H as -> ->. split; [reflexivity|now exists post].
Qed.

Lemma prefixb_skipn_occurs (sub s : pystr) (i : nat) :
  (i <= length s)%nat ->
  prefixb sub (skipn i s) = true <-> occurs_at sub s i.
Proof.
  intros Hi. rewrite prefixb_app. split.
  - intros [post H]. exists (firstn i s), post. split.
    + rewrite <- H. symmetry. apply firstn_skipn.
    + apply firstn_length_le, Hi.
  - intros (pre & post & -> & <-). exists post.
    now rewrite skipn_app, skipn_all, Nat.sub_diag.
Qed.

Lemma occurs_at_le (sub s : pystr) (i : nat) :
  occurs_at sub s i -> (i + length sub <= length s)%nat.
Proof.
  intros (pre & post & -> & <-). rewrite !length_app. lia.
Qed.

Lemma contains_occurs (sub s : pystr) :
  contains sub s = true <-> occurs sub s.
Proof.
  induction s as [|c s IH]; simpl.
  - rewrite orb_false_r, prefixb_app. split.
    + intros [post H]. exists 0%nat, [], post. now split.
    + intros (i & pre & post & H & _). symmetry in H.
      apply app_eq_nil in H as [-> H]. exists post. now symmetry.
  - rewrite orb_true_iff, IH, prefixb_app. split.
    + intros [[post H] | (i & pre & post & -> & Hl)].
      * exists 0%nat, [], post. now split.
      * exists (S i), (c :: pre), post. split; [reflexivity | simpl; lia].
    + intros (i & pre & post & H & Hl). destruct pre as [|c' pre].
      * left. now exists post.
      * right. injection H as -> ->. exists (length pre), pre, post. now split.
Qed.

Lemma find_from_spec (sub s : pystr) (k i : nat) :
  find_from sub s k = Some i ->
  exists j, i = (k + j)%nat /\ occurs_at sub s j /\
            forall j', (j' < j)%nat -> ~ occurs_at sub s j'.
Proof.
  revert k. induction s as [|c s IH]; intros k; simpl.
  - destruct (prefixb sub []) eqn:E; [|discriminate].
    intros [= <-]. exists 0%nat. split; [lia|]. split; [|intros; lia].
    apply (prefixb_skipn_occurs sub [] (i := 0)); [simpl; lia | exact E].
  - destruct (prefixb sub (c :: s)) eqn:E.
    + intros [= <-]. exists 0%nat. split; [lia|]. split; [|intros; lia].
      apply (prefixb_skipn_occurs sub (c :: s) (i := 0)); [simpl; lia | exact E].
    + intros H. apply IH in H as (j & -> & Hocc & Hmin).
      exists (S j). split; [lia|]. split.
      * destruct Hocc as (pre & post & -> & <-).
        exists (c :: pre), post. now split.
      * intros j' Hlt (pre & post & Heq & Hl). destruct pre as [|c' pre].
        -- simpl in Heq. assert (prefixb sub (c :: s) = true) as E'
             by (apply prefixb_app; now exists post).
           congruence.
        -- injection Heq as -> ->. simpl in Hl. subst j'.
           apply (Hmin (length pre)); [lia|]. exists pre, post. now split.
Qed.

Lemma find_from_none (sub s : pystr) (k : nat) :
  find_from sub s k = None -> contains sub s = false.
Proof.
  revert k. induction s as [|c s IH]; intros k; simpl.
  - destruct (prefixb sub []); [discriminate | reflexivity].
  - destruct (prefixb sub (c :: s)); [discriminate|]. simpl. apply IH.
Qed.

(** [content.find(code)] when [code in content]: the first occurrence. *)
Lemma str_find_first (sub s : pystr) :
  contains sub s = true ->
  exists i, str_find s sub = Z.of_nat i /\ occurs_at sub s i /\
            forall j, (j < i)%nat -> ~ occurs_at sub s j.
Proof.
  intros Hc. unfold str_find. destruct (find_from sub s 0) as [i|] eqn:E.
  - apply find_from_spec in E as (j & -> & Hocc & Hmin).
    exists j. repeat split; assumption.
  - apply find_from_none in E. congruence.
Qed.

Lemma len_nonneg (s : pystr) : 0 <= len s.
Proof. unfold len. lia. Qed.

(** A slice whose bounds are inside the string takes the characters
    between them: no bound is moved. *)
Lemma py_slice_inside (s : pystr) (a b : Z) :
  0 <= a <= len s -> 0 <= b <= len s ->
  py_slice s a b = firstn (Z.to_nat (b - a)) (skipn (Z.to_nat a) s).
Proof.
  intros Ha Hb. unfold py_slice, slice_bound.
  destruct (a <? 0) eqn:Ea; [apply Z.ltb_lt in Ea; lia|].
  destruct (b <? 0) eqn:Eb; [apply Z.ltb_lt in Eb; lia|].
  now rewrite !Z.min_l by lia.
Qed.

(** ** [validate_ean] *)

Lemma parity_test (i : nat) : (Z.of_nat i mod 2 =? 0) = Nat.even i.
Proof.
  destruct (Nat.Even_or_Odd i) as [[k ->] | [k ->]].
  - rewrite Nat.even_even, Nat2Z.inj_mul, Z.mul_comm, Z_mod_mult. reflexivity.
  - rewrite Nat.even_odd, Nat2Z.inj_add, Nat2Z.inj_mul, Z.add_comm,
      Z.mul_comm, Z_mod_plus_full.
    reflexivity.
Qed.

Lemma skipn_cons_nth (s : pystr) (i : nat) :
  (i < length s)%nat ->
  exists c, nth_error s i = Some c /\ skipn i s = c :: skipn (S i) s.
Proof.
  revert i. induction s as [|a s IH]; intros i Hi; simpl in Hi; [lia|].
  destruct i as [|i].
  - exists a. now split.
  - destruct (IH i) as (c & Hn & Hs); [lia|]. exists c. now split.
Qed.

Lemma checksum_loop_decimal (n : nat) :
  forall i code total,
    (i + n <= length code)%nat ->
    forallb char_isdecimal (firstn n (skipn i code)) = true ->
    checksum_loop code (seq i n) total =
    Ok (total + weighted_sum_from i (map digit_value (firstn n (skipn i code)))).
Proof.
  induction n as [|n IH]; intros i code total Hlen Hall; simpl.
  - f_equal. lia.
  - destruct (skipn_cons_nth code (i := i)) as (c & Hn & Hs); [lia|].
    rewrite Hs in *. simpl in Hall. apply andb_true_iff in Hall as [Hc Hall].
    unfold str_index. rewrite Hn. simpl. unfold int_of_char. rewrite Hc. simpl.
    rewrite IH by (assumption || lia). simpl. rewrite parity_test.
    unfold digit_value. f_equal. destruct (Nat.even i); lia.
Qed.

Lemma checksum_loop_ok_decimal (n : nat) :
  forall i code total t,
    (i + n <= length code)%nat ->
    checksum_loop code (seq i n) total = Ok t ->
    forallb char_isdecimal (firstn n (skipn i code)) = true.
Proof.
  induction n as [|n IH]; intros i code total t Hlen Hok; simpl; [reflexivity|].
  destruct (skipn_cons_nth code (i := i)) as (c & Hn & Hs); [lia|].
  rewrite Hs. cbn [firstn forallb]. simpl in Hok.
  unfold str_index in Hok. rewrite Hn in Hok.
  cbn [bind] in Hok. unfold int_of_char in Hok.
  destruct (char_isdecimal c); [|discriminate]. cbn [bind andb] in *.
  eapply IH; [|exact Hok]. lia.
Qed.

Lemma decimal_isdigit (s : pystr) :
  forallb char_isdecimal s = true -> forallb char_isdigit s = true.
Proof.
  rewrite !forallb_forall. intros H c Hc. unfold char_isdigit.
  now rewrite (H c Hc).
Qed.

Lemma valid_lengths_spec (n : Z) :
  existsb (Z.eqb n) valid_lengths = true <-> n = 8 \/ n = 13 \/ n = 14.
Proof.
  unfold valid_lengths. cbn [existsb].
  rewrite !orb_true_iff, !Z.eqb_eq. intuition discriminate.
Qed.

(** A string of thirteen characters splits into twelve and one. *)
Lemma split_13 (s : pystr) :
  length s = 13%nat ->
  exists c, nth_error s 12 = Some c /\ s = firstn 12 s ++ [c] /\
            skipn 0 s = s.
Proof.
  intros Hl. destruct (skipn_cons_nth s (i := 12)) as (c & Hn & Hs); [lia|].
  exists c. repeat split; [assumption|].
  rewrite <- (firstn_skipn 12 s) at 1. f_equal. rewrite Hs. f_equal.
  apply length_zero_iff_nil. rewrite length_skipn. lia.
Qed.

Lemma validate_ean_13 (self : EANHistoryFinder) :
  isdigit (ean self) = true -> len (ean self) = 13 ->
  validate_ean self =
    (total <- checksum_loop (ean self) (seq 0 12) 0 ;;
     c <- str_index (ean self) 12 ;;
     last_digit <- int_of_char c ;;
     Ok ((10 - total mod 10) mod 10 =? last_digit)).
Proof.
  intros Hd Hl. unfold validate_ean. rewrite Hd, Hl. reflexivity.
Qed.

Lemma validate_ean_other (self : EANHistoryFinder) :
  isdigit (ean self) = true -> len (ean self) = 8 \/ len (ean self) = 14 ->
  validate_ean self = Ok true.
Proof.
  intros Hd Hl. unfold validate_ean. rewrite Hd.
  destruct Hl as [-> | ->]; reflexivity.
Qed.

Lemma validate_ean_true_inv (self : EANHistoryFinder) :
  validate_ean self = Ok true ->
  isdigit (ean self) = true /\
  (len (ean self) = 8 \/ len (ean self) = 13 \/ len (ean self) = 14).
Proof.
  unfold validate_ean. intros H.
  destruct (isdigit (ean self)); [|discriminate]. cbn [negb] in H.
  destruct (existsb (Z.eqb (len (ean self))) valid_lengths) eqn:E;
    [|discriminate].
  split; [reflexivity | now apply valid_lengths_spec].
Qed.

Lemma digit_values_some (code : pystr) (ds : list Z) :
  digit_values code = Some ds <->
  forallb char_isdecimal code = true /\ ds = map digit_value code.
Proof.
  unfold digit_values. destruct (forallb char_isdecimal code); split.
  - intros [= <-]. now split.
  - intros [_ ->]. reflexivity.
  - discriminate.
  - intros [H _]. discriminate.
Qed.

Lemma nonempty_of_len (code : pystr) :
  len code = 8 \/ len code = 13 \/ len code = 14 -> code <> [].
Proof. intros H ->. unfold len in H. simpl in H. lia. Qed.

Lemma isdigit_decimal (s : pystr) :
  s <> [] -> forallb char_isdecimal s = true -> isdigit s = true.
Proof.
  intros Hne H. unfold isdigit. rewrite (decimal_isdigit _ H).
  destruct s; [congruence | reflexivity].
Qed.

(** On thirteen decimal digits [validate_ean] compares the check digit
    of the first twelve with the thirteenth. *)
Lemma validate_ean_13_decimal (self : EANHistoryFinder) :
  len (ean self) = 13 ->
  forallb char_isdecimal (ean self) = true ->
  validate_ean self =
    Ok (spec_check_digit (firstn 12 (map digit_value (ean self)))
        =? nth 12 (map digit_value (ean self)) 0).
Proof.
  intros Hl Hall.
  assert (length (ean self) = 13%nat) as Hn by (unfold len in Hl; lia).
  assert (ean self <> []) as Hne by (apply nonempty_of_len; tauto).
  rewrite (validate_ean_13 _ (isdigit_decimal Hne Hall) Hl).
  destruct (split_13 _ Hn) as (c & Hc & Hsplit & Hs0).
  assert (forallb char_isdecimal (firstn 12 (ean self)) = true
          /\ char_isdecimal c = true) as [Hdec Edc].
  { rewrite Hsplit, forallb_app in Hall. simpl in Hall.
    apply andb_true_iff in Hall as [H1 H2].
    apply andb_true_iff in H2 as [H2 _]. now split. }
  rewrite <- Hs0 in Hdec at 1.
  rewrite (@checksum_loop_decimal 12 0 (ean self) 0 ltac:(lia) Hdec).
  rewrite Hs0. cbn [bind]. unfold str_index. rewrite Hc. cbn [bind].
  unfold int_of_char. rewrite Edc. cbn [bind]. f_equal.
  unfold spec_check_digit. rewrite firstn_map.
  rewrite (@nth_error_nth Z (map digit_value (ean self)) 12
             (digit_value c) 0)
    by (rewrite nth_error_map, Hc; reflexivity).
  rewrite Z.add_0_l. reflexivity.
Qed.

(** What the specification asks is accepted; and on a code without a
    superscript digit, nothing else is. *)
Lemma validate_ean_decimal_iff (self : EANHistoryFinder) :
  (spec_valid_code (ean self) -> validate_ean self = Ok true) /\
  (existsb char_issuperscript (ean self) = false ->
   validate_ean self = Ok true -> spec_valid_code (ean self)).
Proof.
  split.
  - intros (ds & Hds & Hl & Hck). apply digit_values_some in Hds as [Hall ->].
    pose proof (isdigit_decimal (nonempty_of_len Hl) Hall) as Hd.
    destruct Hl as [Hl | [Hl | Hl]];
      [apply validate_ean_other; tauto | | apply validate_ean_other; tauto].
    rewrite (validate_ean_13_decimal _ Hl Hall). f_equal.
    apply Z.eqb_eq. now apply Hck.
  - intros Hsup Hv. destruct (validate_ean_true_inv _ Hv) as [Hd Hl].
    assert (forallb char_isdecimal (ean self) = true) as Hall.
    { unfold isdigit in Hd. apply andb_true_iff in Hd as [_ Hd].
      rewrite forallb_forall in *. intros c Hc.
      destruct (char_isdecimal c) eqn:E; [reflexivity|].
      assert (existsb char_issuperscript (ean self) = true) as Hex.
      { apply existsb_exists. exists c. split; [exact Hc|].
        unfold char_issuperscript. now rewrite (Hd c Hc), E. }
      congruence. }
    exists (map digit_value (ean self)). split; [|split; [exact Hl|]].
    + apply digit_values_some. now split.
    + intros H13. rewrite (validate_ean_13_decimal _ H13 Hall) in Hv.
      injection Hv as Hv. now apply Z.eqb_eq.
Qed.

Lemma validate_ean_decimal_total (self : EANHistoryFinder) :
  forallb char_isdecimal (ean self) = true ->
  exists b, validate_ean self = Ok b.
Proof.
  intros Hall. unfold validate_ean.
  destruct (isdigit (ean self)) eqn:Hd; [|now exists false].
  cbn [negb].
  destruct (existsb (Z.eqb (len (ean self))) valid_lengths) eqn:Hl;
    [|now exists false].
  cbn [negb]. destruct (len (ean self) =? 13) eqn:H13; [|now exists true].
  apply Z.eqb_eq in H13.
  pose proof (validate_ean_13_decimal _ H13 Hall) as H.
  unfold validate_ean in H. rewrite Hd, Hl in H. cbn [negb] in H.
  replace (len (ean self) =? 13) with true in H
    by (symmetry; now apply Z.eqb_eq).
  rewrite H. eexists. reflexivity.
Qed.

(** C1.  The claim fails on the program at a string of eight
    superscript twos: [validate_ean] accepts it, [str.isdigit] holding
    of each character, although it is no string of decimal digits; and
    on thirteen of them [validate_ean] neither accepts nor refuses, for
    [int] raises [ValueError] on the first one. *)
Theorem validate_ean_superscript_digits :
  validate_ean (new_finder superscript_code_8 []) = Ok true /\
  ~ spec_valid_code superscript_code_8 /\
  forallb char_isdecimal superscript_code_8 = false /\
  validate_ean (new_finder superscript_code_13 []) = Raise ValueError.
Proof.
  split; [vm_compute; reflexivity|]. split; [|split].
  - intros (ds & Hds & _). vm_compute in Hds. discriminate.
  - vm_compute. reflexivity.
  - vm_compute. reflexivity.
Qed.

(** ** The matcher *)

Local Open Scope nat_scope.

Section EngineFacts.

Variable ignorecase : bool.
Variable txt : pystr.

Lemma lit_prefix_length (p s : pystr) :
  lit_prefix ignorecase p s = true -> length p <= length s.
Proof.
  revert s. induction p as [|a p IH]; intros [|b s]; simpl;
    try lia; try discriminate.
  intros H. apply andb_true_iff in H as [_ H]. apply IH in H. lia.
Qed.

Lemma count_run_le (cs : charset) (s : pystr) :
  forall hi, count_run ignorecase cs hi s <= length s.
Proof.
  induction s as [|c s IH]; intros hi.
  - destruct hi as [[|h]|]; simpl; lia.
  - destruct hi as [[|h]|]; simpl; try lia;
      destruct (in_charset ignorecase cs c); try lia.
    + specialize (IH (Some h)). simpl in IH. lia.
    + specialize (IH None). simpl in IH. lia.
Qed.

(** A match that starts inside the text ends inside the text, not
    before its start. *)
Lemma matches_bounds (r : regex) :
  forall i g e g',
    In (e, g') (matches ignorecase txt r i g) ->
    i <= length txt -> i <= e <= length txt.
Proof.
  induction r as [ | p | cs | cs lo hi greedy | a IHa b IHb | a IHa b IHb
                 | r IH | | cs | ]; intros i g e g' Hin Hi; simpl in Hin.
  - destruct Hin as [[= <- <-] | []]. lia.
  - destruct (lit_prefix ignorecase p (skipn i txt)) eqn:E; [|contradiction].
    destruct Hin as [[= <- <-] | []].
    apply lit_prefix_length in E. rewrite length_skipn in E. lia.
  - destruct (nth_error txt i) as [c|] eqn:E; [|contradiction].
    destruct (in_charset ignorecase cs c); [|contradiction].
    destruct Hin as [[= <- <-] | []].
    assert (i < length txt) by (apply nth_error_Some; congruence). lia.
  - pose proof (count_run_le cs (skipn i txt) hi) as Hn.
    rewrite length_skipn in Hn.
    destruct (count_run ignorecase cs hi (skipn i txt) <? lo) eqn:E;
      [contradiction|].
    apply Nat.ltb_ge in E.
    assert (In (e, g')
              (map (fun k => (i + k, g))
                 (seq lo (S (count_run ignorecase cs hi (skipn i txt)) - lo))))
      as Hin' by (destruct greedy; [now apply in_rev|assumption]).
    apply in_map_iff in Hin' as (k & [= <- <-] & Hk).
    apply in_seq in Hk. lia.
  - apply in_flat_map in Hin as ([j g1] & Ha & Hb). simpl in Hb.
    apply IHa in Ha; [|assumption]. apply IHb in Hb; lia.
  - apply in_app_or in Hin as [H | H]; [eapply IHa | eapply IHb]; eassumption.
  - apply in_map_iff in Hin as ([j g1] & [= <- <-] & H). simpl.
    eapply IH; eassumption.
  - destruct (i =? 0); [|contradiction].
    destruct Hin as [[= <- <-] | []]. lia.
  - destruct i as [|j]; [contradiction|].
    destruct (nth_error txt j) as [c|]; [|contradiction].
    destruct (in_charset ignorecase cs c); [|contradiction].
    destruct Hin as [[= <- <-] | []]. lia.
  - destruct (at_boundary txt i); [|contradiction].
    destruct Hin as [[= <- <-] | []]. lia.
Qed.

(** A pattern that needs the literal [w] matches only where [w]
    itself matches somewhere in the text. *)
Lemma matches_needs_literal (w : pystr) (r : regex) :
  needs_literal w r = true ->
  forall i g e g',
    In (e, g') (matches ignorecase txt r i g) ->
    i <= length txt ->
    exists j, j <= length txt /\
              lit_prefix ignorecase w (skipn j txt) = true.
Proof.
  induction r as [ | p | cs | cs lo hi greedy | a IHa b IHb | a IHa b IHb
                 | r IH | | cs | ]; simpl; try discriminate;
    intros Hneed i g e g' Hin Hi.
  - apply pystr_eqb_eq in Hneed as ->.
    destruct (lit_prefix ignorecase w (skipn i txt)) eqn:E; [|contradiction].
    now exists i.
  - apply in_flat_map in Hin as ([j g1] & Ha & Hb). simpl in Hb.
    apply orb_true_iff in Hneed as [H | H].
    + eapply IHa; eassumption.
    + eapply IHb; [assumption | eassumption |].
      apply matches_bounds in Ha; lia.
  - apply andb_true_iff in Hneed as [H1 H2].
    apply in_app_or in Hin as [H | H];
      [eapply IHa | eapply IHb]; eassumption.
  - apply in_map_iff in Hin as ([j g1] & _ & H).
    eapply IH; eassumption.
Qed.

(** A pattern whose group lies on every path sets the group. *)
Lemma matches_always_groups (r : regex) :
  always_groups r = true ->
  forall i g e g',
    In (e, g') (matches ignorecase txt r i g) -> g' <> None.
Proof.
  assert (forall r i g e g',
             In (e, g') (matches ignorecase txt r i g) ->
             g <> None -> g' <> None) as Hkeep.
  { clear r. induction r as [ | p | cs | cs lo hi greedy | a IHa b IHb
                            | a IHa b IHb | r IH | | cs | ];
      intros i g e g' Hin Hg; simpl in Hin.
    - destruct Hin as [[= <- <-] | []]. assumption.
    - destruct (lit_prefix _ _ _); [|contradiction].
      destruct Hin as [[= <- <-] | []]. assumption.
    - destruct (nth_error txt i); [|contradiction].
      destruct (in_charset _ _ _); [|contradiction].
      destruct Hin as [[= <- <-] | []]. assumption.
    - destruct (_ <? lo); [contradiction|].
      assert (In (e, g')
                (map (fun k => (i + k, g))
                   (seq lo (S (count_run ignorecase cs hi (skipn i txt)) - lo))))
        as Hin' by (destruct greedy; [now apply in_rev|assumption]).
      apply in_map_iff in Hin' as (k & [= <- <-] & _). assumption.
    - apply in_flat_map in Hin as ([j g1] & Ha & Hb). simpl in Hb.
      eapply IHb; [eassumption|]. eapply IHa; eassumption.
    - apply in_app_or in Hin as [H | H];
        [eapply IHa | eapply IHb]; eassumption.
    - apply in_map_iff in Hin as ([j g1] & [= <- <-] & _). discriminate.
    - destruct (i =? 0); [|contradiction].
      destruct Hin as [[= <- <-] | []]. assumption.
    - destruct i as [|j]; [contradiction|].
      destruct (nth_error txt j); [|contradiction].
      destruct (in_charset _ _ _); [|contradiction].
      destruct Hin as [[= <- <-] | []]. assumption.
    - destruct (at_boundary txt i); [|contradiction].
      destruct Hin as [[= <- <-] | []]. assumption. }
  induction r as [ | p | cs | cs lo hi greedy | a IHa b IHb | a IHa b IHb
                 | r IH | | cs | ]; simpl; try discriminate;
    intros Hall i g e g' Hin.
  - apply in_flat_map in Hin as ([j g1] & Ha & Hb). simpl in Hb.
    apply orb_true_iff in Hall as [H | H].
    + eapply Hkeep; [eassumption|]. eapply IHa; eassumption.
    + eapply IHb; eassumption.
  - apply andb_true_iff in Hall as [H1 H2].
    apply in_app_or in Hin as [H | H];
      [eapply IHa | eapply IHb]; eassumption.
  - apply in_map_iff in Hin as ([j g1] & [= <- <-] & _). discriminate.
Qed.

(** Every match yielded by the scan of [finditer] is a match of the
    pattern at an offset of the text. *)
Lemma iter_scan_in (r : regex) (k : nat) :
  forall i p mt,
    In mt (iter_scan ignorecase txt r k i p) ->
    exists j jg, mt = mk_match j jg /\
                 In jg (matches ignorecase txt r j None) /\
                 i <= j < i + k.
Proof.
  induction k as [|k IH]; intros i p mt Hin; simpl in Hin; [contradiction|].
  assert (forall p', In mt (iter_scan ignorecase txt r k (S i) p') ->
                     exists j jg, mt = mk_match j jg /\
                                  In jg (matches ignorecase txt r j None) /\
                                  i <= j < i + S k) as Hrec.
  { intros p' H. apply IH in H as (j & jg & -> & Hm & Hj).
    exists j, jg. repeat split; (assumption || lia). }
  destruct (i <? p); [now apply Hrec in Hin|].
  destruct (matches ignorecase txt r i None) as [|jg rest] eqn:E;
    [now apply Hrec in Hin|].
  assert (In jg (matches ignorecase txt r i None)) as Hjg
    by (rewrite E; now left).
  destruct (fst jg =? i).
  - destruct (filter _ (jg :: rest)) as [|jg' rest'] eqn:F.
    + destruct Hin as [<- | Hin]; [|now apply Hrec in Hin].
      exists i, jg. repeat split; (assumption || lia).
    + assert (In jg' (matches ignorecase txt r i None)) as Hjg'.
      { rewrite E. eapply proj1. apply filter_In. rewrite F. now left. }
      destruct Hin as [<- | [<- | Hin]]; [| |now apply Hrec in Hin].
      * exists i, jg. repeat split; (assumption || lia).
      * exists i, jg'. repeat split; (assumption || lia).
  - destruct Hin as [<- | Hin]; [|now apply Hrec in Hin].
    exists i, jg. repeat split; (assumption || lia).
Qed.

Lemma finditer_in (r : regex) (mt : Match) :
  In mt (finditer ignorecase txt r) ->
  exists j jg, mt = mk_match j jg /\
               In jg (matches ignorecase txt r j None) /\
               j <= length txt.
Proof.
  intros H. apply iter_scan_in in H as (j & jg & -> & Hm & Hj).
  exists j, jg. repeat split; (assumption || lia).
Qed.

Lemma finditer_bounds (r : regex) (mt : Match) :
  In mt (finditer ignorecase txt r) ->
  m_start mt <= m_end mt <= length txt.
Proof.
  intros H. apply finditer_in in H as (j & [e g] & -> & Hm & Hj).
  simpl. eapply matches_bounds; eassumption.
Qed.

Lemma search_scan_in (r : regex) (k : nat) :
  forall i mt,
    search_scan ignorecase txt r k i = Some mt ->
    exists j jg, mt = mk_match j jg /\
                 In jg (matches ignorecase txt r j None) /\
                 i <= j < i + k.
Proof.
  induction k as [|k IH]; intros i mt H; simpl in H; [discriminate|].
  destruct (matches ignorecase txt r i None) as [|jg rest] eqn:E.
  - apply IH in H as (j & jg & -> & Hm & Hj).
    exists j, jg. repeat split; (assumption || lia).
  - injection H as <-. exists i, jg.
    repeat split; [rewrite E; now left | lia | lia].
Qed.

(** [re.search] returns a match inside the text. *)
Lemma re_search_bounds (r : regex) (mt : Match) :
  re_search ignorecase txt r = Some mt ->
  m_start mt <= m_end mt <= length txt.
Proof.
  intros H. apply search_scan_in in H as (j & [e g] & -> & Hm & Hj).
  simpl. eapply matches_bounds; [eassumption | lia].
Qed.

(** With a group on every path of the pattern, [match.group(1)] is a
    string, never [None]. *)
Lemma group1_set (r : regex) (mt : Match) :
  always_groups r = true ->
  re_search ignorecase txt r = Some mt ->
  m_group1 mt <> None.
Proof.
  intros Hall H. apply search_scan_in in H as (j & [e g] & -> & Hm & _).
  simpl. eapply matches_always_groups; eassumption.
Qed.

End EngineFacts.

(** The patterns from which the program reads [group(1)]: the product
    patterns, the title pattern, and the date patterns that have a
    group. *)
Lemma program_patterns_set_group1 :
  forallb always_groups (title_pattern :: product_patterns) = true /\
  forallb (fun p => (ngroups p =? 0) || always_groups p) date_patterns = true.
Proof. split; vm_compute; reflexivity. Qed.

Lemma lit_prefix_exact (p s : pystr) : lit_prefix false p s = prefixb p s.
Proof.
  revert s. induction p as [|a p IH]; intros [|b s]; simpl; try reflexivity.
  now rewrite IH, eqb_sym.
Qed.

Local Open Scope Z_scope.

(** ** The white space of a snippet *)

Local Open Scope nat_scope.

Lemma in_charset_space (c : ascii) :
  in_charset false space c = char_isspace c.
Proof.
  unfold in_charset, space, cls. cbn. now rewrite orb_false_r.
Qed.

Lemma count_run_space (s : pystr) :
  count_run false space None s = space_run s.
Proof.
  induction s as [|c rest IH]; [reflexivity|].
  cbn [count_run space_run option_map]. rewrite in_charset_space, IH.
  reflexivity.
Qed.

Lemma space_run_le (s : pystr) : space_run s <= length s.
Proof.
  induction s as [|c rest IH]; simpl; [lia|].
  destruct (char_isspace c); lia.
Qed.

(** At an offset, [\s+] matches the whole run of white space first, and
    does not match where there is none. *)
Lemma matches_whitespace_plus (txt : pystr) (i : nat) :
  let n := space_run (skipn i txt) in
  (n = 0 -> matches false txt whitespace_plus i None = []) /\
  (n <> 0 -> exists others,
               matches false txt whitespace_plus i None =
               (i + n, None) :: others).
Proof.
  intros n. unfold whitespace_plus. cbn [matches].
  rewrite count_run_space. fold n. split.
  - intros ->. reflexivity.
  - intros Hn. destruct n as [|m]; [congruence|].
    replace (S m <? 1) with false by (symmetry; apply Nat.ltb_ge; lia).
    replace (S (S m) - 1) with (S m) by lia.
    rewrite seq_S, map_app, rev_app_distr. cbn [map rev app].
    eexists. reflexivity.
Qed.

Section Scan.

Variable ignorecase : bool.
Variable txt : pystr.
Variable r : regex.

(** Before the offset of the scan, the end of the previous match plays
    no part. *)
Lemma iter_scan_previous (k : nat) :
  forall i p p',
    p <= i -> p' <= i ->
    iter_scan ignorecase txt r k i p = iter_scan ignorecase txt r k i p'.
Proof.
  induction k as [|k IH]; intros i p p' Hp Hp'; [reflexivity|].
  cbn [iter_scan].
  replace (i <? p) with false by (symmetry; apply Nat.ltb_ge; lia).
  replace (i <? p') with false by (symmetry; apply Nat.ltb_ge; lia).
  destruct (matches ignorecase txt r i None) as [|jg rest];
    [apply IH; lia|].
  reflexivity.
Qed.

(** The scan steps over the offsets inside the previous match. *)
Lemma iter_scan_skip (d : nat) :
  forall k i p,
    i + d = p -> d <= k ->
    iter_scan ignorecase txt r k i p =
    iter_scan ignorecase txt r (k - d) p p.
Proof.
  induction d as [|d IH]; intros k i p Hp Hk.
  - rewrite Nat.add_0_r in Hp. subst p. now rewrite Nat.sub_0_r.
  - destruct k as [|k]; [lia|]. cbn [iter_scan].
    replace (i <? p) with true by (symmetry; apply Nat.ltb_lt; lia).
    rewrite (IH k (S i) p) by lia. reflexivity.
Qed.

End Scan.

Lemma collapse_from_run (s : pystr) :
  collapse_from s true = collapse_from (skipn (space_run s) s) false.
Proof.
  induction s as [|c rest IH]; [reflexivity|].
  cbn [collapse_from space_run]. destruct (char_isspace c) eqn:E.
  - rewrite IH. reflexivity.
  - cbn [skipn collapse_from]. now rewrite E.
Qed.

Lemma collapse_from_space (s : pystr) :
  space_run s <> 0 ->
  collapse_from s false =
  " "%char :: collapse_from (skipn (space_run s) s) false.
Proof.
  destruct s as [|c rest]; [simpl; congruence|].
  cbn [collapse_from space_run]. destruct (char_isspace c); [|congruence].
  intros _. now rewrite collapse_from_run.
Qed.

Lemma collapse_from_char (c : ascii) (rest : pystr) :
  space_run (c :: rest) = 0 ->
  collapse_from (c :: rest) false = c :: collapse_from rest false.
Proof.
  cbn [collapse_from space_run]. destruct (char_isspace c); [discriminate|].
  reflexivity.
Qed.

Lemma substr_snoc (txt : pystr) (pos j : nat) (c : ascii) :
  pos <= j -> nth_error txt j = Some c ->
  substr txt pos (S j) = substr txt pos j ++ [c].
Proof.
  intros Hpos Hc. unfold substr.
  assert (skipn pos txt =
          firstn (j - pos) (skipn pos txt) ++ c :: skipn (S j) txt) as Hs.
  { rewrite <- (firstn_skipn (j - pos) (skipn pos txt)) at 1. f_equal.
    rewrite skipn_skipn. replace (j - pos + pos) with j by lia.
    destruct (@skipn_cons_nth txt j) as (c' & Hc' & Hsk);
      [apply nth_error_Some; congruence|].
    congruence. }
  assert (length (firstn (j - pos) (skipn pos txt)) = j - pos) as Hl.
  { apply firstn_length_le. rewrite length_skipn.
    assert (j < length txt) by (apply nth_error_Some; congruence). lia. }
  rewrite Hs at 1. replace (S j - pos) with (length (firstn (j - pos) (skipn pos txt)) + 1) by lia.
  rewrite firstn_app_2. reflexivity.
Qed.

Lemma substr_to_end (txt : pystr) (pos j : nat) :
  length txt <= j -> substr txt pos j = skipn pos txt.
Proof.
  intros Hj. unfold substr. apply firstn_all2. rewrite length_skipn. lia.
Qed.

(** What [sub] builds from the scan of [\s+], from an offset on. *)
Lemma sub_whitespace_from (txt : pystr) (k : nat) :
  forall j pos,
    j + k = S (length txt) -> pos <= j ->
    sub_pieces txt [" "%char]
      (iter_scan false txt whitespace_plus k j j) pos =
    substr txt pos j ++ collapse_from (skipn j txt) false.
Proof.
  induction k as [k IH] using lt_wf_ind. intros j pos Hk Hpos.
  destruct k as [|k].
  - cbn [iter_scan sub_pieces].
    replace (skipn j txt) with (@nil ascii)
      by (symmetry; apply skipn_all2; lia).
    cbn [collapse_from]. rewrite app_nil_r, substr_to_end by lia.
    reflexivity.
  - cbn [iter_scan]. rewrite Nat.ltb_irrefl.
    destruct (matches_whitespace_plus txt j) as [Hnone Hsome].
    destruct (space_run (skipn j txt)) as [|m] eqn:Hrun.
    + rewrite (Hnone eq_refl).
      rewrite (@iter_scan_previous false txt whitespace_plus k (S j) j (S j))
        by lia.
      rewrite (IH k ltac:(lia) (S j) pos) by lia.
      destruct (Nat.eq_dec j (length txt)) as [-> | Hlt].
      * replace (skipn (length txt) txt) with (@nil ascii)
          by (symmetry; apply skipn_all2; lia).
        replace (skipn (S (length txt)) txt) with (@nil ascii)
          by (symmetry; apply skipn_all2; lia).
        rewrite !substr_to_end by lia. reflexivity.
      * destruct (@skipn_cons_nth txt j) as (c & Hc & Hsk); [lia|].
        rewrite Hsk in *.
        rewrite (@collapse_from_char c (skipn (S j) txt) Hrun).
        rewrite (@substr_snoc txt pos j c Hpos Hc), <- app_assoc.
        reflexivity.
    + destruct (Hsome ltac:(lia)) as (others & ->).
      cbn [fst]. replace (j + S m =? j) with false
        by (symmetry; apply Nat.eqb_neq; lia).
      cbn [sub_pieces mk_match m_start m_end fst snd].
      pose proof (space_run_le (skipn j txt)) as Hle.
      rewrite length_skipn, Hrun in Hle.
      rewrite (@iter_scan_skip false txt whitespace_plus m k (S j) (j + S m))
        by lia.
      rewrite (IH (k - m) ltac:(lia) (j + S m) (j + S m)) by lia.
      rewrite (@collapse_from_space (skipn j txt)) by lia.
      rewrite Hrun, skipn_skipn.
      replace (S m + j) with (j + S m) by lia.
      unfold substr at 2. rewrite Nat.sub_diag. reflexivity.
Qed.

(** [re.sub(r'\s+', ' ', s)] puts one space for each run of white
    space. *)
Lemma re_sub_whitespace (txt : pystr) :
  re_sub false txt whitespace_plus [" "%char] = collapse txt.
Proof.
  unfold re_sub, finditer, collapse.
  rewrite (@sub_whitespace_from txt (S (length txt)) 0 0) by lia.
  reflexivity.
Qed.

Lemma clean_snippet_collapse (context : pystr) :
  clean_snippet context = strip (collapse context).
Proof.
  unfold clean_snippet. change (u8 " ") with [" "%char].
  change (Rep space 1 None true) with whitespace_plus.
  now rewrite re_sub_whitespace.
Qed.

Local Open Scope Z_scope.

(** ** [analyze_content] *)

Lemma ean_patterns_need_code (code : pystr) :
  forallb (needs_literal code) (ean_patterns code) = true.
Proof.
  unfold ean_patterns. cbn [forallb needs_literal star].
  rewrite pystr_eqb_refl, !orb_true_r. reflexivity.
Qed.

(** A mention is found only where the code stands in the content. *)
Lemma mention_occurs (code content : pystr) (mt : Match) :
  In mt (mentions code content) -> occurs code content.
Proof.
  intros H. apply in_flat_map in H as (pat & Hpat & Hmt).
  apply finditer_in in Hmt as (j & [e g] & _ & Hm & Hj).
  pose proof (ean_patterns_need_code code) as Hneed.
  rewrite forallb_forall in Hneed.
  destruct (@matches_needs_literal false content code pat (Hneed _ Hpat)
              _ _ _ _ Hm Hj) as (k & Hk & Hlit).
  rewrite lit_prefix_exact in Hlit. exists k.
  now apply prefixb_skipn_occurs.
Qed.

Lemma fold_left_flat_map {A B C} (f : A -> C -> A) (g : B -> list C)
  (l : list B) :
  forall init,
    fold_left (fun acc x => fold_left f (g x) acc) l init =
    fold_left f (flat_map g l) init.
Proof.
  induction l as [|x l IH]; intros init; simpl; [reflexivity|].
  now rewrite fold_left_app, IH.
Qed.

Lemma pattern_findings_mentions (code content source : pystr) :
  pattern_findings code content source =
  fold_left (add_mention content source) (mentions code content) [].
Proof. apply fold_left_flat_map. Qed.

Section Dedup.

Variables content source : pystr.

Let add := add_mention content source.
Let finding_of := mention_finding content source.

Lemma add_mention_cases (found : list Finding) (mt : Match) :
  (In (snippet (finding_of mt)) (map snippet found) /\ add found mt = found)
  \/ (~ In (snippet (finding_of mt)) (map snippet found)
      /\ add found mt = found ++ [finding_of mt]).
Proof.
  unfold add, add_mention. fold (finding_of mt).
  destruct (existsb _ found) eqn:E.
  - left. split; [|reflexivity].
    apply existsb_exists in E as (f & Hf & Heq).
    apply pystr_eqb_eq in Heq. rewrite <- Heq. now apply in_map.
  - right. split; [|reflexivity].
    intros Hin. apply in_map_iff in Hin as (f & Heq & Hf).
    assert (existsb (fun existing =>
              pystr_eqb (snippet existing) (snippet (finding_of mt))) found
            = true) as E'.
    { apply existsb_exists. exists f. split; [assumption|].
      now apply pystr_eqb_eq. }
    congruence.
Qed.

(** The loop keeps the snippets pairwise distinct, keeps what was
    found, adds findings of mentions only, and leaves every mention
    with a finding that carries its snippet. *)
Lemma fold_add_mention (ms : list Match) :
  forall found,
    NoDup (map snippet found) ->
    let out := fold_left add ms found in
    NoDup (map snippet out) /\
    incl found out /\
    (forall f, In f out -> In f found \/ exists mt, In mt ms /\ f = finding_of mt) /\
    (forall mt, In mt ms -> In (snippet (finding_of mt)) (map snippet out)).
Proof.
  induction ms as [|mt ms IH]; intros found Hnd; simpl.
  - repeat split; auto using incl_refl. intros mt [].
  - assert (NoDup (map snippet (add found mt)) /\ incl found (add found mt) /\
            (forall f, In f (add found mt) -> In f found \/ f = finding_of mt) /\
            In (snippet (finding_of mt)) (map snippet (add found mt)))
      as (Hnd' & Hincl & Hfrom & Hhas).
    { destruct (add_mention_cases found mt) as [[Hin ->] | [Hnin ->]].
      - repeat split; auto using incl_refl.
      - repeat split.
        + rewrite map_app. apply NoDup_app; [assumption| |].
          * simpl. constructor; [intros []|constructor].
          * intros s Hs [<- | []]. contradiction.
        + now apply incl_appl, incl_refl.
        + intros f Hf. apply in_app_or in Hf as [Hf | [<- | []]]; auto.
        + rewrite map_app. apply in_or_app. right. now left. }
    destruct (IH _ Hnd') as (H1 & H2 & H3 & H4).
    repeat split.
    + exact H1.
    + eapply incl_tran; eassumption.
    + intros f Hf. apply H3 in Hf as [Hf | (mt' & Hmt' & ->)].
      * apply Hfrom in Hf as [Hf | ->]; [now left|].
        right. exists mt. split; [now left | reflexivity].
      * right. exists mt'. split; [now right | reflexivity].
    + intros mt' [<- | Hmt'].
      * apply in_map_iff in Hhas as (f & Heq & Hf).
        apply in_map_iff. exists f. split; [exact Heq | now apply H2].
      * now apply H4.
Qed.

End Dedup.

Lemma pattern_findings_facts (code content source : pystr) :
  let out := pattern_findings code content source in
  NoDup (map snippet out) /\
  (forall f, In f out ->
     exists mt, In mt (mentions code content) /\
                f = mention_finding content source mt) /\
  (forall mt, In mt (mentions code content) ->
     In (snippet (mention_finding content source mt)) (map snippet out)).
Proof.
  rewrite pattern_findings_mentions.
  destruct (@fold_add_mention content source (mentions code content)
              [] ltac:(constructor)) as (H1 & _ & H3 & H4).
  repeat split; [exact H1 | | exact H4].
  intros f Hf. destruct (H3 f Hf) as [[] | H]. exact H.
Qed.

Lemma pattern_findings_empty (code content source : pystr) :
  pattern_findings code content source = [] <-> mentions code content = [].
Proof.
  split; intros H.
  - destruct (mentions code content) as [|mt ms] eqn:E; [reflexivity|].
    destruct (pattern_findings_facts code content source) as (_ & _ & Hhas).
    specialize (Hhas mt). rewrite E, H in Hhas. destruct Hhas. now left.
  - rewrite pattern_findings_mentions, H. reflexivity.
Qed.

Lemma is_empty_true {A} (l : list A) : is_empty l = true <-> l = [].
Proof. destruct l; simpl; split; congruence. Qed.

Lemma is_empty_false {A} (l : list A) : is_empty l = false <-> l <> [].
Proof. destruct l; simpl; split; congruence. Qed.

(** The two ways [all_findings] is filled. *)
Lemma all_findings_cases (code content source : pystr) :
  (mentions code content <> [] /\
   all_findings code content source = pattern_findings code content source /\
   pattern_findings code content source <> [])
  \/ (mentions code content = [] /\ contains code content = true /\
      all_findings code content source =
        [fallback_finding code content source])
  \/ (mentions code content = [] /\ contains code content = false /\
      all_findings code content source = []).
Proof.
  unfold all_findings.
  destruct (pattern_findings code content source) as [|f fs] eqn:E.
  - apply pattern_findings_empty in E. right. simpl.
    destruct (contains code content); [left | right]; now repeat split.
  - left. simpl. repeat split; try congruence.
    intros H. apply (pattern_findings_empty code content source) in H.
    congruence.
Qed.

Lemma analyze_content_some (self : EANHistoryFinder)
  (content source : pystr) (r : SourceResult) :
  analyze_content self content source = Some r <->
  content <> [] /\ all_findings (ean self) content source <> [] /\
  r = {| sr_url := source;
         findings := all_findings (ean self) content source |}.
Proof.
  unfold analyze_content.
  destruct (is_empty content) eqn:Ec.
  - apply is_empty_true in Ec. split; [discriminate | tauto].
  - apply is_empty_false in Ec.
    destruct (is_empty (all_findings (ean self) content source)) eqn:Ef.
    + apply is_empty_true in Ef. split; [discriminate | tauto].
    + apply is_empty_false in Ef. split.
      * intros [= <-]. now repeat split.
      * intros (_ & _ & ->). reflexivity.
Qed.

Lemma score_count (indicators : list regex) (context : pystr) :
  score indicators context = matching_count indicators context.
Proof.
  unfold score, matching_count.
  enough (forall acc,
             fold_left
               (fun s p => match re_search true context p with
                           | Some _ => s + 1
                           | None => s
                           end) indicators acc =
             acc + Z.of_nat
                     (length
                        (filter
                           (fun p => match re_search true context p with
                                     | Some _ => true
                                     | None => false
                                     end) indicators))) as H
      by (rewrite H; lia).
  induction indicators as [|p ps IH]; intros acc; simpl; [lia|].
  rewrite IH. destruct (re_search true context p); simpl length; lia.
Qed.

(** The assessment that the loop over the mentions computes obeys the
    rule on the window it is computed from. *)
Lemma assess_by_strict_comparison (context : pystr) :
  by_strict_comparison (assess context) context.
Proof.
  unfold by_strict_comparison, assess, historical_score, current_score.
  rewrite !score_count.
  set (h := matching_count historical_indicators context).
  set (c := matching_count current_indicators context).
  destruct (h >? c) eqn:E1; [|destruct (c >? h) eqn:E2];
    rewrite ?Z.gtb_ltb, ?Z.ltb_lt, ?Z.ltb_ge in *;
    repeat split; intros; try discriminate; try lia; reflexivity.
Qed.

(** C3, as the program has it.  For every mention, the assessment
    computed from its window is [Historico] exactly when more historical
    than current indicator patterns are found there, [Actual] exactly
    when more current than historical ones are, and [Indeterminado]
    exactly when the two counts are equal, zero included.  Every finding
    of a result is the finding of a mention, assessed by this rule on
    the window of the mention, or, when no pattern finds a mention, the
    finding of the fallback, which is [Indeterminado] without a count. *)
Theorem assessment_by_strict_comparison (self : EANHistoryFinder)
  (content source : pystr) (r : SourceResult) :
  analyze_content self content source = Some r ->
  (forall mt, In mt (mentions (ean self) content) ->
     by_strict_comparison
       (assessment (mention_finding content source mt))
       (window content mt)) /\
  Forall
    (fun f =>
       (exists mt, In mt (mentions (ean self) content) /\
                   f = mention_finding content source mt /\
                   by_strict_comparison (assessment f) (window content mt))
       \/ (mentions (ean self) content = [] /\
           f = fallback_finding (ean self) content source /\
           assessment f = Indeterminado))
    (findings r).
Proof.
  intros Hr. split.
  - intros mt _. apply assess_by_strict_comparison.
  - apply analyze_content_some in Hr as (_ & _ & ->). cbn [findings].
    destruct (pattern_findings_facts (ean self) content source)
      as (_ & Hfrom & _).
    destruct (all_findings_cases (ean self) content source)
      as [(_ & Hall & _) | [(Hm & _ & Hall) | (_ & _ & Hall)]];
      rewrite Hall.
    + apply Forall_forall. intros f Hf.
      destruct (Hfrom f Hf) as (mt & Hmt & ->). left. exists mt.
      split; [exact Hmt|]. split; [reflexivity|].
      apply assess_by_strict_comparison.
    + constructor; [|constructor]. right. now repeat split.
    + constructor.
Qed.

Lemma assessment_by_strict_comparison_witness :
  exists r,
    analyze_content scenario_finder scenario_content scenario_url = Some r /\
    Forall (fun f => assessment f = Historico) (findings r).
Proof.
  eexists. split; [vm_compute; reflexivity|].
  eapply Forall_impl;
    [|apply (proj2 (@assessment_by_strict_comparison scenario_finder
                      scenario_content scenario_url _
                      ltac:(vm_compute; reflexivity)))].
  intros f [(mt & Hmt & -> & _) | (Hm & _)].
  - vm_compute in Hmt.
    destruct Hmt as [<- | [<- | []]]; vm_compute; reflexivity.
  - vm_compute in Hm. discriminate.
Defined.

(** C3, as the specification has it, fails on the window of the
    fallback: on a page where the code stands without a word boundary,
    three historical indicators and one current indicator are found in
    the window, and the finding is [Indeterminado]. *)
Lemma fallback_window_not_scored :
  let context :=
    py_slice glued_discontinued_content
      (fallback_start (str_find glued_discontinued_content scenario_code))
      (fallback_end glued_discontinued_content
         (str_find glued_discontinued_content scenario_code)) in
  exists f,
    analyze_content scenario_finder glued_discontinued_content scenario_url =
      Some {| sr_url := scenario_url; findings := [f] |}
    /\ snippet f = clean_snippet context
    /\ matching_count historical_indicators context = 3
    /\ matching_count current_indicators context = 1
    /\ assessment f = Indeterminado
    /\ ~ by_strict_comparison (assessment f) context.
Proof.
  intros context. eexists. split; [vm_compute; reflexivity|].
  split; [vm_compute; reflexivity|].
  assert (matching_count historical_indicators context = 3) as Hh
    by (vm_compute; reflexivity).
  assert (matching_count current_indicators context = 1) as Hc
    by (vm_compute; reflexivity).
  split; [exact Hh|]. split; [exact Hc|]. split; [reflexivity|].
  cbn [assessment]. unfold by_strict_comparison. rewrite Hh, Hc.
  intros (_ & _ & H). assert (3 = 1) as E by now apply H. discriminate.
Qed.

Lemma occurs_nonempty (code content : pystr) :
  code <> [] -> occurs code content -> content <> [].
Proof.
  intros Hne (i & Hocc) ->. apply occurs_at_le in Hocc. simpl in Hocc.
  destruct code; [congruence | simpl in Hocc; lia].
Qed.

Lemma analyze_content_occurs (self : EANHistoryFinder)
  (content source : pystr) (r : SourceResult) :
  analyze_content self content source = Some r ->
  occurs (ean self) content.
Proof.
  intros H. apply analyze_content_some in H as (_ & Hne & _).
  destruct (all_findings_cases (ean self) content source)
    as [(Hm & _) | [(_ & Hc & _) | (_ & _ & He)]].
  - destruct (mentions (ean self) content) as [|mt ms] eqn:E; [congruence|].
    apply (@mention_occurs (ean self) content mt). rewrite E. now left.
  - now apply contains_occurs.
  - congruence.
Qed.



(** C5.  The findings of one call have pairwise distinct snippets.
    The key of a mention is the text of its window with every run of
    white space replaced by one space and the white space at both ends
    removed; every mention has exactly one finding with its key as
    snippet, so that mentions with the same key share one finding. *)
Theorem findings_snippets_distinct (self : EANHistoryFinder)
  (content source : pystr) (r : SourceResult) :
  analyze_content self content source = Some r ->
  NoDup (map snippet (findings r)) /\
  (forall mt, In mt (mentions (ean self) content) ->
     count_occ pystr_dec (map snippet (findings r))
       (strip (collapse (window content mt))) = 1%nat).
Proof.
  intros H. apply analyze_content_some in H as (_ & _ & ->).
  cbn [findings].
  destruct (pattern_findings_facts (ean self) content source)
    as (Hnd & _ & Hhas).
  destruct (all_findings_cases (ean self) content source)
    as [(_ & -> & _) | [(Hm & _ & ->) | (Hm & _ & ->)]].
  - split; [exact Hnd|]. intros mt Hmt.
    apply NoDup_count_occ'; [exact Hnd|].
    rewrite <- clean_snippet_collapse. exact (Hhas mt Hmt).
  - split; [repeat constructor; intros []|]. rewrite Hm. intros mt [].
  - split; [constructor|]. rewrite Hm. intros mt [].
Qed.

Lemma findings_snippets_distinct_witness :
  exists r,
    analyze_content scenario_finder spaced_content scenario_url = Some r /\
    In spaced_first (mentions scenario_code spaced_content) /\
    In spaced_second (mentions scenario_code spaced_content) /\
    window spaced_content spaced_first <> window spaced_content spaced_second /\
    strip (collapse (window spaced_content spaced_first)) =
      u8 "EAN 1234567890123" /\
    strip (collapse (window spaced_content spaced_second)) =
      u8 "EAN 1234567890123" /\
    count_occ pystr_dec (map snippet (findings r)) (u8 "EAN 1234567890123")
      = 1%nat /\
    length (findings r) = 1%nat.
Proof.
  assert (exists r,
             analyze_content scenario_finder spaced_content scenario_url
               = Some r /\ length (findings r) = 1%nat) as (r & Hr & Hlen).
  { eexists. split; [vm_compute; reflexivity | reflexivity]. }
  exists r. split; [exact Hr|].
  assert (In spaced_first (mentions scenario_code spaced_content)) as H1
    by (vm_compute; tauto).
  split; [exact H1|].
  split; [vm_compute; tauto|].
  split; [vm_compute; discriminate|].
  assert (strip (collapse (window spaced_content spaced_first)) =
          u8 "EAN 1234567890123") as Hk by (vm_compute; reflexivity).
  split; [exact Hk|].
  split; [vm_compute; reflexivity|].
  split; [|exact Hlen].
  rewrite <- Hk.
  exact (proj2 (@findings_snippets_distinct scenario_finder spaced_content
                  scenario_url r Hr) spaced_first H1).
Defined.

(** C6.  Every window that [analyze_content] cuts, around a mention
    (400 characters before its start and after its end) or around the
    first occurrence in the fallback, has its two bounds between [0] and
    [len(content)], the first not after the second, so that the slice
    takes the characters between them and no bound is moved. *)
Theorem windows_within_content (code content : pystr) (a b : Z) :
  computed_window code content a b ->
  0 <= a /\ a <= b /\ b <= len content /\
  py_slice content a b = firstn (Z.to_nat (b - a)) (skipn (Z.to_nat a) content).
Proof.
  intros Hw.
  assert (0 <= a /\ a <= b /\ b <= len content) as Hb.
  { destruct Hw as [mt Hmt | Hnone Hc].
    - apply in_flat_map in Hmt as (pat & _ & Hmt).
      apply finditer_bounds in Hmt.
      unfold window_start, window_end, len. lia.
    - destruct (str_find_first _ _ Hc) as (i & -> & Hat & _).
      apply occurs_at_le in Hat.
      unfold fallback_start, fallback_end, len. lia. }
  split; [|split; [|split]]; try tauto.
  apply py_slice_inside; lia.
Qed.

Lemma windows_within_content_witness :
  computed_window scenario_code scenario_content 0 49 /\
  py_slice scenario_content 0 49 = scenario_content.
Proof.
  assert (computed_window scenario_code scenario_content 0 49) as Hw.
  { apply (MentionWindow scenario_code scenario_content
             {| m_start := 7; m_end := 20; m_group1 := None |}).
    vm_compute. left. reflexivity. }
  split; [exact Hw|].
  destruct (windows_within_content Hw) as (_ & _ & _ & ->).
  vm_compute. reflexivity.
Defined.

(** C10.  A result of [analyze_content] carries the url of the call, and
    so does each of its findings, whether it comes from a mention or
    from the fallback. *)
Theorem findings_carry_url (self : EANHistoryFinder)
  (content source : pystr) (r : SourceResult) :
  analyze_content self content source = Some r ->
  sr_url r = source /\
  Forall (fun f => url f = source) (findings r) /\
  (forall mt, url (mention_finding content source mt) = source) /\
  url (fallback_finding (ean self) content source) = source.
Proof.
  intros H. apply analyze_content_some in H as (_ & _ & ->).
  cbn [sr_url findings]. split; [reflexivity|].
  split; [|split; [reflexivity | reflexivity]].
  destruct (pattern_findings_facts (ean self) content source)
    as (_ & Hfrom & _).
  destruct (all_findings_cases (ean self) content source)
    as [(_ & -> & _) | [(_ & _ & ->) | (_ & _ & ->)]].
  - apply Forall_forall. intros f Hf.
    destruct (Hfrom f Hf) as (mt & _ & ->). reflexivity.
  - repeat constructor.
  - constructor.
Qed.

Lemma findings_carry_url_witness :
  exists r,
    analyze_content scenario_finder scenario_content scenario_url = Some r /\
    sr_url r = scenario_url /\
    Forall (fun f => url f = scenario_url) (findings r).
Proof.
  eexists. split; [vm_compute; reflexivity|].
  refine (let H := findings_carry_url
                     scenario_finder scenario_content scenario_url _ in
          conj (proj1 H) (proj1 (proj2 H))).
  vm_compute. reflexivity.
Defined.

(** ** [search] *)

Section SearchFacts.

Variable search_openfoodfacts : option SourceResult.
Variable search_wayback_machine : option SourceResult.
Variable search_amazon : option SourceResult.
Variable search_with_requests : pystr -> option (list Candidate).
Variable extract_content_from_url : pystr -> pystr.

Let run :=
  run_task search_openfoodfacts search_wayback_machine search_amazon
    extract_content_from_url.

Let search_in :=
  search search_openfoodfacts search_wayback_machine search_amazon
    search_with_requests extract_content_from_url.

Lemma keep_in (analysis : option SourceResult) (r : SourceResult) :
  In r (keep analysis) <-> analysis = Some r /\ findings r <> [].
Proof.
  unfold keep. destruct analysis as [a|]; [|simpl; intuition discriminate].
  destruct (is_empty (findings a)) eqn:E; simpl.
  - apply is_empty_true in E. split; [intros [] | intros [[= ->] H]].
    contradiction.
  - apply is_empty_false in E. split.
    + intros [-> | []]. now split.
    + intros [[= ->] _]. now left.
Qed.

(** What a run returns for a valid code, for given completion orders. *)
Lemma search_valid (cq : list pystr -> list pystr)
  (ct : list Task -> list Task) (self : EANHistoryFinder) :
  validate_ean self = Ok true ->
  search_in cq ct self =
  Ok (flat_map (fun t => keep (run self t))
        (ct ([TaskOpenFoodFacts; TaskWayback; TaskAmazon]
               ++ flat_map (spawned search_with_requests)
                    (cq (search_terms self))))).
Proof.
  intros Hv. unfold search_in, search. rewrite Hv. reflexivity.
Qed.

Lemma collected_permutation (cq : list pystr -> list pystr)
  (ct : list Task -> list Task) (self : EANHistoryFinder) :
  (forall l, Permutation l (cq l)) ->
  (forall l, Permutation l (ct l)) ->
  Permutation
    (flat_map (fun t => keep (run self t))
       (submitted_tasks search_with_requests self))
    (flat_map (fun t => keep (run self t))
       (ct ([TaskOpenFoodFacts; TaskWayback; TaskAmazon]
              ++ flat_map (spawned search_with_requests)
                   (cq (search_terms self))))).
Proof.
  intros Hq Ht. apply Permutation_flat_map.
  eapply Permutation_trans; [|apply Ht].
  unfold submitted_tasks. apply Permutation_app_head.
  apply Permutation_flat_map, Hq.
Qed.

(** C7.  For a valid code, whatever the order in which the queries and
    the tasks complete, [search] returns the same results up to order:
    those, with at least one finding, of the tasks of the run. *)
Theorem search_order_independent
  (cq cq' : list pystr -> list pystr) (ct ct' : list Task -> list Task)
  (self : EANHistoryFinder) :
  (forall l, Permutation l (cq l)) ->
  (forall l, Permutation l (cq' l)) ->
  (forall l, Permutation l (ct l)) ->
  (forall l, Permutation l (ct' l)) ->
  validate_ean self = Ok true ->
  exists rs rs',
    search_in cq ct self = Ok rs /\
    search_in cq' ct' self = Ok rs' /\
    Permutation rs rs' /\
    (forall r, In r rs <-> In r rs') /\
    (forall r, In r rs <->
       findings r <> [] /\
       exists t, In t (submitted_tasks search_with_requests self) /\
                 run self t = Some r).
Proof.
  intros Hq Hq' Ht Ht' Hv.
  pose proof (@collected_permutation cq ct self Hq Ht) as P.
  pose proof (@collected_permutation cq' ct' self Hq' Ht') as P'.
  eexists. eexists.
  split; [apply search_valid, Hv|]. split; [apply search_valid, Hv|].
  assert (Permutation
            (flat_map (fun t => keep (run self t))
               (ct ([TaskOpenFoodFacts; TaskWayback; TaskAmazon]
                      ++ flat_map (spawned search_with_requests)
                           (cq (search_terms self)))))
            (flat_map (fun t => keep (run self t))
               (ct' ([TaskOpenFoodFacts; TaskWayback; TaskAmazon]
                       ++ flat_map (spawned search_with_requests)
                            (cq' (search_terms self)))))) as PP
    by (eapply Permutation_trans; [apply Permutation_sym, P | exact P']).
  split; [exact PP|]. split.
  - intros r. split; intros H.
    + eapply Permutation_in; eassumption.
    + eapply Permutation_in; [apply Permutation_sym|]; eassumption.
  - intros r. split.
    + intros H. apply (Permutation_in _ (Permutation_sym P)) in H.
      apply in_flat_map in H as (t & Hin & Hk).
      apply keep_in in Hk as [Hr Hne]. split; [exact Hne|].
      exists t. now split.
    + intros (Hne & t & Hin & Hr).
      apply (Permutation_in _ P). apply in_flat_map. exists t.
      split; [exact Hin|]. apply keep_in. now split.
Qed.

(** C2, as the program has it.  When [validate_ean] returns [False],
    [search] returns the empty list and raises nothing. *)
Theorem search_invalid_code_returns_empty
  (cq : list pystr -> list pystr) (ct : list Task -> list Task)
  (self : EANHistoryFinder) :
  validate_ean self = Ok false ->
  search_in cq ct self = Ok [].
Proof.
  intros Hv. unfold search_in, search. rewrite Hv. reflexivity.
Qed.

End SearchFacts.

Lemma search_order_independent_witness :
  validate_ean (new_finder scenario_code_8 []) = Ok true /\
  exists rs rs',
    search_sample (fun l => l) (fun l => l) (new_finder scenario_code_8 [])
      = Ok rs /\
    search_sample (@rev pystr) (@rev Task) (new_finder scenario_code_8 [])
      = Ok rs' /\
    Permutation rs rs' /\ length rs = 12%nat.
Proof.
  split; [vm_compute; reflexivity|].
  destruct (@search_order_independent
              (Some sample_record) None None sample_candidates sample_page
              (fun l => l) (@rev pystr) (fun l => l) (@rev Task)
              (new_finder scenario_code_8 []))
    as (rs & rs' & H1 & H2 & HP & _).
  - intros l. apply Permutation_refl.
  - intros l. apply Permutation_rev.
  - intros l. apply Permutation_refl.
  - intros l. apply Permutation_rev.
  - vm_compute. reflexivity.
  - exists rs, rs'. repeat split; try assumption.
    unfold search_sample in *.
    assert (Ok rs = search (Some sample_record) None None sample_candidates
                      sample_page (fun l => l) (fun l => l)
                      (new_finder scenario_code_8 [])) as E
      by (symmetry; exact H1).
    vm_compute in E. injection E as ->. reflexivity.
Defined.

Lemma search_invalid_code_returns_empty_witness :
  validate_ean scenario_finder = Ok false /\
  search_sample (fun l => l) (fun l => l) scenario_finder = Ok [].
Proof.
  split; [vm_compute; reflexivity|].
  apply search_invalid_code_returns_empty. vm_compute. reflexivity.
Defined.

(** C2, as the specification has it, fails twice.  The code
    [1234567890128] of its scenario has the right check digit and is
    accepted; and a run on a code that is refused, such as
    [1234567890123], raises nothing and returns what a run on a valid
    code returns when nothing is found. *)
Lemma invalid_run_not_distinguished :
  validate_ean (new_finder scenario_code_8 []) = Ok true /\
  validate_ean scenario_finder = Ok false /\
  search_nothing_found (fun l => l) (fun l => l) scenario_finder = Ok [] /\
  search_nothing_found (fun l => l) (fun l => l)
    (new_finder scenario_code_8 []) = Ok [] /\
  ~ (forall self,
       validate_ean self = Ok false ->
       exists e, search_nothing_found (fun l => l) (fun l => l) self = Raise e).
Proof.
  split; [vm_compute; reflexivity|].
  split; [vm_compute; reflexivity|].
  split; [vm_compute; reflexivity|].
  split; [vm_compute; reflexivity|].
  intros H. destruct (H scenario_finder) as [e He];
    [vm_compute; reflexivity|].
  vm_compute in He. discriminate.
Qed.

(** ** The scenario of the discontinued product *)

(** C9, as the specification has it, fails: the finding does not carry
    the date clue [2015]. *)
Lemma scenario_date_clue_is_not_2015 :
  ~ (exists f,
       analyze_content scenario_finder scenario_content scenario_url =
         Some {| sr_url := scenario_url; findings := [f] |}
       /\ assessment f = Historico
       /\ date_clue f = u8 "2015").
Proof.
  intros (f & H & _ & Hd). vm_compute in H. injection H as <-.
  vm_compute in Hd. discriminate.
Qed.

(** C9, as the program has it.  On the content
    [...EAN 1234567890123 fue descatalogado en 2015...] and the code
    [1234567890123], [analyze_content] returns one finding, [Historico],
    whose date clue is the keyword [descatalogado]: the pattern of the
    discontinuation keywords comes before every pattern that could
    capture the year, and it has no group. *)
Theorem scenario_one_historical_finding :
  exists f,
    analyze_content scenario_finder scenario_content scenario_url =
      Some {| sr_url := scenario_url; findings := [f] |}
    /\ assessment f = Historico
    /\ date_clue f = u8 "descatalogado"
    /\ historical_score scenario_content = 2
    /\ current_score scenario_content = 0.
Proof.
  eexists. split; [vm_compute; reflexivity|].
  repeat split; vm_compute; reflexivity.
Qed.

(** ** Further scenarios of [validate_ean] *)

Example eight_digits_accepted :
  validate_ean (new_finder (u8 "12345678") []) = Ok true.
Proof. vm_compute. reflexivity. Qed.

Example wrong_check_digit_refused :
  validate_ean (new_finder scenario_code []) = Ok false.
Proof. vm_compute. reflexivity. Qed.

(** * Properties of the rest of the program *)

(** ** [retry_on_exception] *)

Lemma backoff_S (k : nat) : backoff (S k) = backoff k ++ [2 ^ Z.of_nat k].
Proof. unfold backoff. rewrite seq_S, map_app. reflexivity. Qed.

Lemma backoff_sum (k : nat) : py_sum (backoff k) = 2 ^ Z.of_nat k - 1.
Proof.
  assert (forall l x, fold_right Z.add x l = fold_right Z.add 0 l + x) as H.
  { induction l as [|y l IHl]; intros x; cbn [fold_right]; [lia|].
    rewrite IHl. lia. }
  induction k as [|k IH]; [reflexivity|].
  rewrite backoff_S. unfold py_sum in *. rewrite fold_right_app.
  cbn [fold_right]. rewrite H, IH, Nat2Z.inj_succ, Z.pow_succ_r by lia. lia.
Qed.

Lemma pow2_S (a : nat) : 2 ^ Z.of_nat a * 2 = 2 ^ Z.of_nat (S a).
Proof. rewrite Nat2Z.inj_succ, Z.pow_succ_r by lia. lia. Qed.

Section Retry.

Variables A E : Type.
Variable none : A.
Variable is_exception : E -> bool.
Variable func : nat -> outcome A E.
Variable max_attempts : Z.

Let loop := retry_loop none is_exception func max_attempts.

(** The first [k] calls raise caught exceptions; the next one does not:
    its outcome is the outcome of the wrapper. *)
Lemma retry_loop_stops (k : nat) :
  forall a m,
    (k < m)%nat -> Z.of_nat (a + m) = max_attempts ->
    (forall j, (j < k)%nat -> caught is_exception (func (a + j))) ->
    (~ caught is_exception (func (a + k)) \/ S k = m) ->
    loop (seq a m) (2 ^ Z.of_nat a) a (backoff a) =
    {| rr_outcome := func (a + k);
       rr_calls := S (a + k);
       rr_sleeps := backoff (a + k) |}.
Proof.
  subst loop.
  induction k as [|k IH]; intros a m Hk Hmax Hfail Hstop.
  - destruct m as [|m]; [lia|]. cbn [seq retry_loop].
    rewrite Nat.add_0_r in *.
    destruct (func a) as [v|e] eqn:Ef; [reflexivity|].
    destruct (is_exception e) eqn:Ee; [|reflexivity].
    destruct Hstop as [Hn | Hm].
    + exfalso. apply Hn. now exists e.
    + replace (Z.of_nat a =? max_attempts - 1) with true
        by (symmetry; apply Z.eqb_eq; lia).
      reflexivity.
  - destruct m as [|m]; [lia|]. cbn [seq retry_loop].
    destruct (Hfail 0%nat ltac:(lia)) as (e & He & Hee).
    rewrite Nat.add_0_r in He. rewrite He, Hee.
    destruct (Z.of_nat a =? max_attempts - 1) eqn:T;
      [apply Z.eqb_eq in T; lia|].
    rewrite pow2_S, <- backoff_S.
    rewrite (IH (S a) m); try lia.
    + now replace (S a + k)%nat with (a + S k)%nat by lia.
    + intros j Hj. replace (S a + j)%nat with (a + S j)%nat by lia.
      apply Hfail. lia.
    + replace (S a + k)%nat with (a + S k)%nat by lia.
      destruct Hstop as [Hn | Hm]; [now left | right; lia].
Qed.

(** Every run: the calls made, the delays slept, and whose outcome
    comes back. *)
Lemma retry_loop_shape (m : nat) :
  forall a,
    (m <> 0%nat -> Z.of_nat (a + m) = max_attempts) ->
    let run := loop (seq a m) (2 ^ Z.of_nat a) a (backoff a) in
    (a <= rr_calls run <= a + m)%nat /\
    rr_sleeps run = backoff (Nat.max a (rr_calls run - 1)) /\
    (m = 0%nat -> rr_calls run = a /\ rr_outcome run = Returns none) /\
    (m <> 0%nat ->
     (a < rr_calls run)%nat /\
     rr_outcome run = func (rr_calls run - 1) /\
     (forall j, (a <= j < rr_calls run - 1)%nat ->
                caught is_exception (func j)) /\
     (caught is_exception (func (rr_calls run - 1)) ->
      rr_calls run = (a + m)%nat)).
Proof.
  subst loop.
  induction m as [|m IH]; intros a Hmax; cbn [seq retry_loop].
  - cbn [rr_calls rr_sleeps rr_outcome].
    repeat split; try lia; try congruence. f_equal. lia.
  - assert (forall o,
               func a = o ->
               (~ caught is_exception o \/ m = 0%nat) ->
               let run := {| rr_outcome := o; rr_calls := S a;
                             rr_sleeps := backoff a |} in
               (a <= rr_calls run <= a + S m)%nat /\
               rr_sleeps run = backoff (Nat.max a (rr_calls run - 1)) /\
               (S m = 0%nat ->
                rr_calls run = a /\ rr_outcome run = Returns none) /\
               (S m <> 0%nat ->
                (a < rr_calls run)%nat /\
                rr_outcome run = func (rr_calls run - 1) /\
                (forall j, (a <= j < rr_calls run - 1)%nat ->
                           caught is_exception (func j)) /\
                (caught is_exception (func (rr_calls run - 1)) ->
                 rr_calls run = (a + S m)%nat))) as Hstop.
    { intros o Ho Hlast run. subst run.
      cbn [rr_calls rr_sleeps rr_outcome].
      replace (S a - 1)%nat with a by lia.
      repeat split; try lia.
      - f_equal. lia.
      - now symmetry.
      - rewrite Ho. intros Hc. destruct Hlast as [Hn | ->]; [tauto | lia]. }
    destruct (func a) as [v|e] eqn:Ef.
    + apply Hstop; [reflexivity|]. left. intros (e & He & _). discriminate.
    + destruct (is_exception e) eqn:Ee.
      * destruct (Z.of_nat a =? max_attempts - 1) eqn:T.
        -- apply Hstop; [reflexivity|]. right.
           apply Z.eqb_eq in T. specialize (Hmax ltac:(lia)). lia.
        -- apply Z.eqb_neq in T. rewrite pow2_S, <- backoff_S.
           assert (m <> 0%nat) as Hm
             by (specialize (Hmax ltac:(lia)); lia).
           destruct (IH (S a)) as (H1 & H2 & _ & H4);
             [intros _; specialize (Hmax ltac:(lia)); lia|].
           destruct (H4 Hm) as (H5 & H6 & H7 & H8).
           repeat split; try lia.
           ++ rewrite H2. f_equal. lia.
           ++ exact H6.
           ++ intros j Hj. destruct (Nat.eq_dec j a) as [-> | Hne].
              ** exists e. now split.
              ** apply H7. lia.
           ++ intros Hc. rewrite (H8 Hc). lia.
      * apply Hstop; [reflexivity|]. left. intros (e' & He' & Hee').
        injection He' as <-. congruence.
Qed.

End Retry.

(** X1.  When the first [k] calls raise exceptions that the wrapper
    catches and the next one returns, with [k < max_attempts], the
    wrapper returns that value after [k + 1] calls, having slept
    [1, 2, ..., 2^(k-1)] seconds between them, [2^k - 1] in all. *)
Theorem retry_returns_first_success (A E : Type) (none : A)
  (is_exception : E -> bool) (max_attempts : Z)
  (func : nat -> outcome A E) (k : nat) (v : A) :
  Z.of_nat k < max_attempts ->
  (forall j, (j < k)%nat -> caught is_exception (func j)) ->
  func k = Returns v ->
  retry_on_exception none is_exception max_attempts func =
    {| rr_outcome := Returns v;
       rr_calls := S k;
       rr_sleeps := backoff k |}
  /\ py_sum (backoff k) = 2 ^ Z.of_nat k - 1.
Proof.
  intros Hk Hfail Hok. split; [|apply backoff_sum].
  unfold retry_on_exception, py_range. rewrite <- Hok.
  apply (@retry_loop_stops A E none is_exception func max_attempts k 0%nat
           (Z.to_nat max_attempts)); try assumption; simpl; try lia.
  left. rewrite Hok. intros (e & He & _). discriminate.
Qed.

Lemma retry_returns_first_success_witness :
  retry_on_exception 0 sample_is_exception 3
    (fun call => if (call <? 2)%nat then Raises Timeout else Returns 7) =
  {| rr_outcome := Returns 7; rr_calls := 3; rr_sleeps := [1; 2] |}.
Proof.
  refine (proj1 (@retry_returns_first_success Z sample_exn 0
                   sample_is_exception 3
                   (fun call => if (call <? 2)%nat then Raises Timeout
                                else Returns 7) 2%nat 7 _ _ _)).
  - lia.
  - intros j Hj. exists Timeout.
    destruct j as [|[|j]]; [now split | now split | lia].
  - reflexivity.
Defined.

(** X2.  When the first [k] calls raise exceptions that the wrapper
    catches and the next one raises, with [k < max_attempts], the
    wrapper raises the exception of that call after [k + 1] calls, and
    sleeps no more, in two cases: the call is the last attempt, or its
    exception is none that [except Exception] catches. *)
Theorem retry_reraises_last (A E : Type) (none : A)
  (is_exception : E -> bool) (max_attempts : Z)
  (func : nat -> outcome A E) (k : nat) (e : E) :
  Z.of_nat k < max_attempts ->
  (forall j, (j < k)%nat -> caught is_exception (func j)) ->
  func k = Raises e ->
  is_exception e = false \/ Z.of_nat (S k) = max_attempts ->
  retry_on_exception none is_exception max_attempts func =
    {| rr_outcome := Raises e;
       rr_calls := S k;
       rr_sleeps := backoff k |}.
Proof.
  intros Hk Hfail He Hstop.
  unfold retry_on_exception, py_range. rewrite <- He.
  apply (@retry_loop_stops A E none is_exception func max_attempts k 0%nat
           (Z.to_nat max_attempts)); try assumption; simpl; try lia.
  destruct Hstop as [Hn | Hm]; [left | right; lia].
  rewrite He. intros (e' & He' & Hee'). injection He' as <-. congruence.
Qed.

Lemma retry_reraises_last_witness :
  retry_on_exception 0 sample_is_exception 3
    (fun call => if (call <? 2)%nat then Raises Timeout
                 else Raises ConnectionError) =
  {| rr_outcome := Raises ConnectionError; rr_calls := 3;
     rr_sleeps := [1; 2] |}
  /\ retry_on_exception 0 sample_is_exception 3
       (fun call => if (call <? 1)%nat then Raises Timeout
                    else Raises KeyboardInterrupt) =
     {| rr_outcome := Raises KeyboardInterrupt; rr_calls := 2;
        rr_sleeps := [1] |}.
Proof.
  split.
  - apply (@retry_reraises_last Z sample_exn 0 sample_is_exception 3
             (fun call => if (call <? 2)%nat then Raises Timeout
                          else Raises ConnectionError) 2%nat ConnectionError).
    + lia.
    + intros j Hj. exists Timeout.
      destruct j as [|[|j]]; [now split | now split | lia].
    + reflexivity.
    + right. reflexivity.
  - apply (@retry_reraises_last Z sample_exn 0 sample_is_exception 3
             (fun call => if (call <? 1)%nat then Raises Timeout
                          else Raises KeyboardInterrupt)
             1%nat KeyboardInterrupt).
    + lia.
    + intros j Hj. exists Timeout.
      destruct j as [|j]; [now split | lia].
    + reflexivity.
    + left. reflexivity.
Defined.

(** X3.  Whatever the function does, the wrapper calls it at most
    [max_attempts] times and sleeps once between two calls, the delay
    doubling from 1.  When [max_attempts] is not positive the function
    is not called and the wrapper returns [None].  Otherwise the outcome
    of the wrapper is that of the last call made; the calls before it
    raised exceptions that the wrapper catches; and if the last call did
    so too, it was attempt number [max_attempts]. *)
Theorem retry_calls_bounded (A E : Type) (none : A)
  (is_exception : E -> bool) (max_attempts : Z)
  (func : nat -> outcome A E) :
  let run := retry_on_exception none is_exception max_attempts func in
  Z.of_nat (rr_calls run) <= Z.max 0 max_attempts /\
  rr_sleeps run = backoff (rr_calls run - 1)%nat /\
  (max_attempts <= 0 ->
   rr_calls run = 0%nat /\ rr_outcome run = Returns none) /\
  (0 < max_attempts ->
   (0 < rr_calls run)%nat /\
   rr_outcome run = func (rr_calls run - 1)%nat /\
   (forall j, (j < rr_calls run - 1)%nat -> caught is_exception (func j)) /\
   (caught is_exception (func (rr_calls run - 1)%nat) ->
    Z.of_nat (rr_calls run) = max_attempts)).
Proof.
  intros run. subst run. unfold retry_on_exception, py_range.
  destruct (@retry_loop_shape A E none is_exception func max_attempts
              (Z.to_nat max_attempts) 0%nat) as (H1 & H2 & H3 & H4);
    [simpl; lia|].
  change (2 ^ Z.of_nat 0) with 1 in *. change (backoff 0) with (@nil Z) in *.
  split; [lia|]. split; [rewrite H2; f_equal; lia|]. split.
  - intros H. apply H3. lia.
  - intros H. destruct H4 as (H5 & H6 & H7 & H8); [lia|].
    split; [exact H5|]. split; [exact H6|]. split.
    + intros j Hj. apply H7. lia.
    + intros Hc. rewrite (H8 Hc). simpl. lia.
Qed.

(** ** [get_next_proxy] *)

Lemma list_index_in_range {A} (l : list A) (i : Z) :
  0 <= i < Z.of_nat (length l) ->
  exists x, list_index l i = Ok x /\ nth_error l (Z.to_nat i) = Some x.
Proof.
  intros Hi. unfold list_index.
  destruct (i <? 0) eqn:E1; [apply Z.ltb_lt in E1; lia|].
  destruct (Z.of_nat (length l) <=? i) eqn:E2; [apply Z.leb_le in E2; lia|].
  rewrite ?E1. cbn [orb]. destruct (nth_error l (Z.to_nat i)) as [x|] eqn:E.
  - exists x. split; reflexivity.
  - apply nth_error_None in E. lia.
Qed.

Lemma get_next_proxy_some (self : EANHistoryFinder) :
  proxies self <> [] ->
  exists p,
    nth_error (proxies self)
      (Z.to_nat (proxy_index self mod Z.of_nat (length (proxies self))))
    = Some p /\
    get_next_proxy self =
      Ok (proxy_config p, set_proxy_index self (proxy_index self + 1)).
Proof.
  unfold get_next_proxy. intros Hne.
  destruct (proxies self) as [|p0 ps] eqn:E; [congruence|].
  cbn [is_empty].
  destruct (@list_index_in_range _ (p0 :: ps)
              (proxy_index self mod Z.of_nat (length (p0 :: ps))))
    as (p & Hidx & Hnth).
  { apply Z.mod_pos_bound. simpl length. lia. }
  exists p. split; [exact Hnth|]. rewrite Hidx. reflexivity.
Qed.

(** X4.  [get_next_proxy] never fails: without proxies it returns [None]
    and leaves the finder as it is; with proxies, whatever the value of
    [proxy_index], negative included, it returns the proxy at
    [proxy_index mod len(proxies)], the same for both schemes, and adds
    one to [proxy_index]. *)
Theorem get_next_proxy_total (self : EANHistoryFinder) :
  (proxies self = [] -> get_next_proxy self = Ok (None, self)) /\
  (proxies self <> [] ->
   exists p,
     nth_error (proxies self)
       (Z.to_nat (proxy_index self mod Z.of_nat (length (proxies self))))
     = Some p /\
     In p (proxies self) /\
     get_next_proxy self =
       Ok (proxy_config p, set_proxy_index self (proxy_index self + 1))).
Proof.
  split.
  - unfold get_next_proxy. intros ->. reflexivity.
  - intros Hne. destruct (get_next_proxy_some self Hne) as (p & Hnth & Hrun).
    exists p. split; [exact Hnth|].
    split; [eapply nth_error_In; eassumption | exact Hrun].
Qed.

Lemma get_next_proxy_total_witness :
  let self :=
    {| ean := scenario_code; results := []; max_results := 10;
       lang := u8 "es"; proxies := [u8 "p0"; u8 "p1"; u8 "p2"];
       proxy_index := -2; user_agent := [] |} in
  proxies self <> [] /\
  exists p, get_next_proxy self =
              Ok (proxy_config p, set_proxy_index self (-1)) /\ p = u8 "p1".
Proof.
  intros self. split; [discriminate|].
  destruct (proj2 (get_next_proxy_total self) ltac:(discriminate))
    as (p & Hnth & _ & Hrun).
  exists p. split; [exact Hrun|].
  vm_compute in Hnth. injection Hnth as <-. vm_compute. reflexivity.
Defined.

Lemma skipn_cons {A} (l : list A) (i : nat) (x : A) :
  nth_error l i = Some x -> skipn i l = x :: skipn (S i) l.
Proof.
  revert i. induction l as [|a l IH]; intros [|i] H; try discriminate.
  - injection H as ->. reflexivity.
  - apply IH in H. exact H.
Qed.

Lemma next_proxies_run (k : nat) :
  forall self r,
    (k <> 0%nat ->
     proxy_index self mod Z.of_nat (length (proxies self)) = Z.of_nat r) ->
    (r + k <= length (proxies self))%nat ->
    next_proxies k self =
      Ok (map proxy_config (firstn k (skipn r (proxies self))),
          set_proxy_index self (proxy_index self + Z.of_nat k)).
Proof.
  induction k as [|k IH]; intros self r Hr Hk.
  - simpl. rewrite Z.add_0_r. destruct self; reflexivity.
  - assert (proxies self <> []) as Hne
      by (destruct (proxies self); simpl in Hk; [lia | discriminate]).
    destruct (get_next_proxy_some self Hne) as (p & Hnth & Hrun).
    specialize (Hr ltac:(lia)). rewrite Hr, Nat2Z.id in Hnth.
    cbn [next_proxies]. rewrite Hrun. cbn [bind fst snd].
    rewrite (IH (set_proxy_index self (proxy_index self + 1)) (S r)).
    + cbn [bind fst snd set_proxy_index proxies proxy_index].
      f_equal. f_equal.
      * rewrite (skipn_cons _ _ Hnth). reflexivity.
      * unfold set_proxy_index. cbn. f_equal. lia.
    + intros Hk0. cbn [set_proxy_index proxies proxy_index].
      rewrite <- Zplus_mod_idemp_l, Hr.
      rewrite Z.mod_small; lia.
    + cbn [set_proxy_index proxies]. lia.
Qed.

(** X5.  The proxies are used in turn: whenever [proxy_index] is a
    multiple of the number of proxies, as after [__init__], as many
    calls as there are proxies return the proxies in the order of the
    list, each once, and leave [proxy_index] a multiple again. *)
Theorem proxies_round_robin (self : EANHistoryFinder) :
  proxies self <> [] ->
  proxy_index self mod Z.of_nat (length (proxies self)) = 0 ->
  let n := length (proxies self) in
  next_proxies n self =
    Ok (map proxy_config (proxies self),
        set_proxy_index self (proxy_index self + Z.of_nat n)) /\
  (proxy_index self + Z.of_nat n) mod Z.of_nat n = 0.
Proof.
  intros Hne H0 n. split.
  - rewrite (@next_proxies_run n self 0%nat); [|intros _; exact H0|lia].
    subst n. rewrite skipn_O, firstn_all. reflexivity.
  - rewrite <- Zplus_mod_idemp_l. fold n in H0. rewrite H0.
    simpl. apply Z_mod_same_full.
Qed.

Lemma proxies_round_robin_witness :
  let self :=
    {| ean := scenario_code; results := []; max_results := 10;
       lang := u8 "es"; proxies := [u8 "p0"; u8 "p1"; u8 "p2"];
       proxy_index := 0; user_agent := [] |} in
  next_proxies 3 self =
    Ok (map proxy_config [u8 "p0"; u8 "p1"; u8 "p2"], set_proxy_index self 3).
Proof.
  intros self.
  refine (proj1 (@proxies_round_robin self _ _)).
  - discriminate.
  - reflexivity.
Defined.

(** ** The check digit of [validate_ean] *)

Lemma ord_inj (c c' : ascii) : ord c = ord c' -> c = c'.
Proof.
  unfold ord. intros H. apply N2Z.inj in H.
  rewrite <- (ascii_N_embedding c), <- (ascii_N_embedding c'). now f_equal.
Qed.

Lemma decimal_value_range (c : ascii) :
  char_isdecimal c = true -> 0 <= digit_value c <= 9.
Proof.
  unfold char_isdecimal, between, digit_value. intros H.
  apply andb_true_iff in H as [H1 H2].
  apply Z.leb_le in H1. apply Z.leb_le in H2. lia.
Qed.

Lemma weighted_sum_app (a b : list Z) :
  forall i,
    weighted_sum_from i (a ++ b) =
    weighted_sum_from i a + weighted_sum_from (i + length a) b.
Proof.
  induction a as [|d a IH]; intros i; simpl.
  - now rewrite Nat.add_0_r.
  - rewrite IH. replace (S i + length a)%nat with (i + S (length a))%nat by lia.
    lia.
Qed.

(** A code of thirteen characters is accepted exactly when they are
    decimal digits whose weighted sum, check digit included, is a
    multiple of ten. *)
Lemma validate_ean_13_sum (self : EANHistoryFinder) :
  length (ean self) = 13%nat ->
  validate_ean self = Ok true <->
  forallb char_isdecimal (ean self) = true /\
  weighted_sum_from 0 (map digit_value (ean self)) mod 10 = 0.
Proof.
  intros Hn. destruct (split_13 _ Hn) as (c & Hc & Hsplit & Hs0).
  assert (len (ean self) = 13) as Hl by (unfold len; lia).
  assert (weighted_sum_from 0 (map digit_value (ean self)) =
          weighted_sum_from 0 (map digit_value (firstn 12 (ean self)))
          + digit_value c) as Hsum.
  { rewrite Hsplit at 1. rewrite map_app, weighted_sum_app.
    rewrite length_map, length_firstn, Hn.
    change (weighted_sum_from (0 + Nat.min 12 13) (map digit_value [c]))
      with (1 * digit_value c + 0).
    lia. }
  split.
  - intros H. destruct (validate_ean_true_inv _ H) as [Hd _].
    rewrite (validate_ean_13 _ Hd Hl) in H.
    destruct (checksum_loop (ean self) (seq 0 12) 0) as [total|] eqn:Hck;
      [|discriminate].
    pose proof (@checksum_loop_ok_decimal 12 0 (ean self) 0 total
                  ltac:(lia) Hck) as Hdec.
    rewrite (@checksum_loop_decimal 12 0 (ean self) 0 ltac:(lia) Hdec) in Hck.
    injection Hck as <-. rewrite Hs0 in *.
    cbn [bind] in H. unfold str_index in H. rewrite Hc in H. cbn [bind] in H.
    unfold int_of_char in H. destruct (char_isdecimal c) eqn:Edc;
      [|discriminate].
    cbn [bind] in H. injection H as H. apply Z.eqb_eq in H.
    split.
    + rewrite Hsplit, forallb_app, Hdec. simpl. now rewrite Edc.
    + rewrite Hsum.
      assert ((10 - (0 + weighted_sum_from 0
                           (map digit_value (firstn 12 (ean self))))
                    mod 10) mod 10 = digit_value c) as H' by exact H.
      clear H. rewrite Z.add_0_l in H'.
      pose proof (decimal_value_range _ Edc).
      pose proof (Z.mod_pos_bound
                    (weighted_sum_from 0
                       (map digit_value (firstn 12 (ean self)))) 10
                    ltac:(lia)) as Hb.
      rewrite <- H'. rewrite Z.add_mod by lia.
      rewrite Z.mod_mod by lia.
      set (m := weighted_sum_from 0 (map digit_value (firstn 12 (ean self)))
                mod 10) in *.
      assert (m = 0 \/ 1 <= m <= 9) as [-> | Hm] by lia; [reflexivity|].
      rewrite (Z.mod_small (10 - m)) by lia.
      replace (m + (10 - m)) with 10 by lia. reflexivity.
  - intros [Hall Hmod].
    assert (ean self <> []) as Hne by (intros E; rewrite E in Hn; discriminate).
    rewrite (validate_ean_13 _ (isdigit_decimal Hne Hall) Hl).
    assert (forallb char_isdecimal (firstn 12 (ean self)) = true
            /\ char_isdecimal c = true) as [Hdec Edc].
    { rewrite Hsplit, forallb_app in Hall. simpl in Hall.
      apply andb_true_iff in Hall as [H1 H2].
      apply andb_true_iff in H2 as [H2 _]. now split. }
    rewrite Hsum in Hmod.
    rewrite <- Hs0 in Hdec at 1.
    rewrite (@checksum_loop_decimal 12 0 (ean self) 0 ltac:(lia) Hdec).
    rewrite Hs0. cbn [bind]. unfold str_index. rewrite Hc. cbn [bind].
    unfold int_of_char. rewrite Edc. cbn [bind]. f_equal. apply Z.eqb_eq.
    change ((10 - (0 + weighted_sum_from 0
                         (map digit_value (firstn 12 (ean self))))
                  mod 10) mod 10 = digit_value c).
    rewrite Z.add_0_l.
    pose proof (decimal_value_range _ Edc) as Hr.
    set (s12 := weighted_sum_from 0 (map digit_value (firstn 12 (ean self))))
      in *.
    pose proof (Z.mod_pos_bound s12 10 ltac:(lia)) as Hb.
    rewrite Z.add_mod in Hmod by lia.
    rewrite (Z.mod_small (digit_value c)) in Hmod by lia.
    set (m := s12 mod 10) in *.
    assert (m + digit_value c = 0 \/ m + digit_value c = 10) as [E | E].
    { assert (0 <= m + digit_value c < 20) as Hrange by lia.
      destruct (Z.eq_dec (m + digit_value c) 0) as [E0|N0]; [now left|].
      right. destruct (Z_lt_le_dec (m + digit_value c) 10) as [Hlt|Hge].
      - rewrite Z.mod_small in Hmod by lia. lia.
      - replace (m + digit_value c) with ((m + digit_value c - 10) + 1 * 10)
          in Hmod by lia.
        rewrite Z_mod_plus_full, Z.mod_small in Hmod by lia. lia. }
    + replace m with 0 by lia. replace (digit_value c) with 0 by lia.
      reflexivity.
    + replace (digit_value c) with (10 - m) by lia.
      assert (1 <= m <= 9) by lia. rewrite Z.mod_small by lia. reflexivity.
Qed.

Lemma ord_chr (z : Z) : 0 <= z < 256 -> ord (chr z) = z.
Proof.
  intros Hz. unfold ord, chr. rewrite N_ascii_embedding; lia.
Qed.

Lemma check_digit_arith (s d : Z) :
  0 <= d <= 9 ->
  ((s + d) mod 10 = 0 <-> d = (10 - s mod 10) mod 10).
Proof.
  intros Hd. pose proof (Z.mod_pos_bound s 10 ltac:(lia)) as Hb.
  rewrite Z.add_mod by lia. rewrite (Z.mod_small d) by lia.
  set (m := s mod 10) in *.
  assert (m = 0 \/ 1 <= m <= 9) as [-> | Hm] by lia.
  - change ((10 - 0) mod 10) with 0. rewrite Z.add_0_l, Z.mod_small by lia.
    reflexivity.
  - rewrite (Z.mod_small (10 - m)) by lia.
    destruct (Z_lt_le_dec (m + d) 10) as [Hlt | Hge].
    + rewrite Z.mod_small by lia. lia.
    + replace (m + d) with ((m + d - 10) + 1 * 10) by lia.
      rewrite Z_mod_plus_full, Z.mod_small by lia. lia.
Qed.

Lemma weighted_sum_13 (body : pystr) (c : ascii) :
  length body = 12%nat ->
  weighted_sum_from 0 (map digit_value (body ++ [c])) =
  weighted_sum_from 0 (map digit_value body) + digit_value c.
Proof.
  intros Hn. rewrite map_app, weighted_sum_app, length_map, Hn.
  change (weighted_sum_from (0 + 12) (map digit_value [c]))
    with (1 * digit_value c + 0).
  lia.
Qed.

(** X6.  Twelve decimal digits [0]..[9] are completed to a code that
    [validate_ean] accepts by exactly one of the ten decimal digits
    [0]..[9], the digit [(10 - sum mod 10) mod 10] of their weighted
    sum; with each of the nine others [validate_ean] returns [False]. *)
Theorem check_digit_exists_unique (body agent : pystr) :
  length body = 12%nat ->
  forallb char_isdecimal body = true ->
  let c := chr (48 + spec_check_digit (map digit_value body)) in
  char_isdecimal c = true /\
  (forall c', char_isdecimal c' = true ->
     validate_ean (new_finder (body ++ [c']) agent) =
       Ok (if ascii_dec c' c then true else false)).
Proof.
  intros Hn Hdec c.
  assert (0 <= spec_check_digit (map digit_value body) <= 9) as Hr.
  { unfold spec_check_digit.
    pose proof (Z.mod_pos_bound
                  (10 - weighted_sum_from 0 (map digit_value body) mod 10) 10
                  ltac:(lia)).
    lia. }
  assert (ord c = 48 + spec_check_digit (map digit_value body)) as Hord
    by (apply ord_chr; lia).
  assert (char_isdecimal c = true) as Hc.
  { unfold char_isdecimal, between. rewrite Hord.
    apply andb_true_iff. split; apply Z.leb_le; lia. }
  split; [exact Hc|]. intros c' Hc'.
  assert (length (body ++ [c']) = 13%nat) as H13
    by (rewrite length_app, Hn; reflexivity).
  rewrite validate_ean_13_decimal.
  - cbn [new_finder ean]. f_equal.
    rewrite map_app, firstn_app, length_map, Hn.
    rewrite firstn_all2 by (rewrite length_map; lia).
    cbn [Nat.sub firstn map]. rewrite app_nil_r.
    rewrite app_nth2 by (rewrite length_map; lia).
    rewrite length_map, Hn. cbn [Nat.sub nth].
    destruct (ascii_dec c' c) as [-> | Hne].
    + apply Z.eqb_eq. change (digit_value c) with (ord c - 48). lia.
    + apply Z.eqb_neq. intros E. apply Hne, ord_inj.
      change (digit_value c') with (ord c' - 48) in E. lia.
  - cbn [new_finder ean]. unfold len. lia.
  - cbn [new_finder ean]. rewrite forallb_app, Hdec. simpl. now rewrite Hc'.
Qed.

Lemma check_digit_exists_unique_witness :
  validate_ean (new_finder (u8 "123456789012" ++ [chr 56]) []) = Ok true /\
  validate_ean (new_finder (u8 "123456789012" ++ [chr 51]) []) = Ok false.
Proof.
  destruct (@check_digit_exists_unique (u8 "123456789012") []
              ltac:(reflexivity) ltac:(vm_compute; reflexivity))
    as [_ H].
  split.
  - rewrite (H (chr 56)) by (vm_compute; reflexivity). reflexivity.
  - rewrite (H (chr 51)) by (vm_compute; reflexivity). reflexivity.
Defined.

(** X7.  When [validate_ean] accepts a code of thirteen decimal digits
    [0]..[9], it returns [False] on the code in which one of them is
    replaced by a different decimal digit [0]..[9]. *)
Theorem single_substitution_detected (self self' : EANHistoryFinder)
  (pre post : pystr) (c c' : ascii) :
  length (ean self) = 13%nat ->
  ean self = pre ++ c :: post ->
  ean self' = pre ++ c' :: post ->
  forallb char_isdecimal (ean self) = true ->
  char_isdecimal c' = true ->
  c <> c' ->
  validate_ean self = Ok true ->
  validate_ean self' = Ok false.
Proof.
  intros Hn He He' Hdec Hc' Hne Hv.
  assert (length (ean self') = 13%nat) as Hn'
    by (rewrite He'; rewrite He in Hn; rewrite length_app in *; exact Hn).
  assert (forallb char_isdecimal (ean self') = true) as Hdec'.
  { rewrite He in Hdec. rewrite He'. rewrite forallb_app in *.
    apply andb_true_iff in Hdec as [H1 H2]. cbn [forallb] in *.
    apply andb_true_iff in H2 as [_ H2]. now rewrite H1, Hc', H2. }
  destruct (validate_ean_decimal_total _ Hdec') as [[|] Hv'];
    [exfalso | exact Hv'].
  apply (proj1 (validate_ean_13_sum _ Hn)) in Hv as [Hall Hmod].
  apply (proj1 (validate_ean_13_sum _ Hn')) in Hv' as [Hall' Hmod'].
  rewrite He in Hall, Hmod. rewrite He' in Hall', Hmod'.
  rewrite forallb_app in Hall, Hall'.
  apply andb_true_iff in Hall as [_ Hc]. simpl in Hc.
  apply andb_true_iff in Hc as [Hc _].
  rewrite map_app, weighted_sum_app in Hmod, Hmod'.
  cbn [map weighted_sum_from] in Hmod, Hmod'.
  apply decimal_value_range in Hc as Hr. apply decimal_value_range in Hc' as Hr'.
  assert (digit_value c <> digit_value c') as Hd.
  { intros E. apply Hne, ord_inj. unfold digit_value in E. lia. }
  set (a := weighted_sum_from 0 (map digit_value pre)) in *.
  set (b := weighted_sum_from (S (0 + length (map digit_value pre)))
              (map digit_value post)) in *.
  set (w := if Nat.even (0 + length (map digit_value pre)) then 1 else 3) in *.
  assert (w = 1 \/ w = 3) as Hw by (subst w; destruct (Nat.even _); lia).
  apply Z.mod_divide in Hmod as [q Hq]; [|lia].
  apply Z.mod_divide in Hmod' as [q' Hq']; [|lia].
  destruct Hw as [Hw | Hw]; rewrite Hw in *; lia.
Qed.

Lemma single_substitution_detected_witness :
  validate_ean (new_finder scenario_code_8 []) = Ok true /\
  validate_ean (new_finder (u8 "1234567890728") []) = Ok false.
Proof.
  split; [vm_compute; reflexivity|].
  apply (@single_substitution_detected
           (new_finder scenario_code_8 [])
           (new_finder (u8 "1234567890728") [])
           (u8 "1234567890") (u8 "28") (chr 49) (chr 55));
    try (vm_compute; reflexivity).
  vm_compute. discriminate.
Defined.

(** ** [search_terms] *)

Lemma app_swap_digit (e s p : pystr) (p0 : ascii) :
  forallb char_isdigit e = true -> char_isdigit p0 = false ->
  e ++ s = (p0 :: p) ++ e -> e = [] /\ s = p0 :: p.
Proof.
  intros He Hp H. destruct e as [|c e].
  - split; [reflexivity|]. simpl in H. now rewrite app_nil_r in H.
  - simpl in *. injection H as -> _.
    apply andb_true_iff in He as [Hc _]. congruence.
Qed.

(** X8.  For a code made of digits, the eleven queries are pairwise
    distinct, and each of them contains the code. *)
Theorem search_terms_distinct (self : EANHistoryFinder) :
  forallb char_isdigit (ean self) = true ->
  length (search_terms self) = 11%nat /\
  NoDup (search_terms self) /\
  (forall t, In t (search_terms self) -> occurs (ean self) t).
Proof.
  intros Hd. split; [reflexivity|]. split.
  - set (suffixes := [ []; u8 " producto"; u8 " código de barras";
                       u8 " barcode"; u8 " upc"; u8 " histórico";
                       u8 " descatalogado"; u8 " versión anterior" ]).
    set (prefixes := [ u8 "código de barras "; u8 "barcode "; u8 "EAN " ]).
    assert (search_terms self =
            map (fun s => ean self ++ s) suffixes
            ++ map (fun p => p ++ ean self) prefixes) as ->.
    { unfold search_terms, suffixes, prefixes. cbn [map app].
      now rewrite app_nil_r. }
    apply NoDup_app.
    + apply Finite.Injective_map_NoDup.
      * intros x y H. eapply app_inv_head; eassumption.
      * unfold suffixes. vm_compute.
        repeat (constructor; [cbn [In]; intuition discriminate|]).
        constructor.
    + apply Finite.Injective_map_NoDup.
      * intros x y H. eapply app_inv_tail; eassumption.
      * unfold prefixes. vm_compute.
        repeat (constructor; [cbn [In]; intuition discriminate|]).
        constructor.
    + intros t Hs Hp.
      apply in_map_iff in Hs as (s & <- & Hs).
      apply in_map_iff in Hp as (p & Heq & Hp). symmetry in Heq.
      assert (exists p0 p', p = p0 :: p' /\ char_isdigit p0 = false)
        as (p0 & p' & -> & Hp0).
      { unfold prefixes in Hp. cbn [In] in Hp.
        destruct Hp as [<- | [<- | [<- | []]]]; eexists; eexists;
          (split; [vm_compute; reflexivity | vm_compute; reflexivity]). }
      destruct (@app_swap_digit (ean self) s p' p0 Hd Hp0 Heq) as [_ ->].
      unfold suffixes, prefixes in *.
      vm_compute in Hs, Hp.
      destruct Hp as [Hp | [Hp | [Hp | []]]]; rewrite <- Hp in Hs;
        intuition discriminate.
  - intros t Ht. unfold search_terms in Ht. cbn [In] in Ht.
    assert (forall b, occurs (ean self) (ean self ++ b)) as Hl
      by (intros b; exists 0%nat, [], b; now split).
    assert (forall a, occurs (ean self) (a ++ ean self)) as Hr
      by (intros a; exists (length a), a, []; split;
          [now rewrite app_nil_r | reflexivity]).
    assert (occurs (ean self) (ean self)) as H0
      by (exists 0%nat, [], []; split; [now rewrite app_nil_r | reflexivity]).
    destruct Ht as [<- | [<- | [<- | [<- | [<- | [<- | [<- | [<- | [<- |
                   [<- | [<- | []]]]]]]]]]]];
      first [ exact H0 | apply Hl | apply Hr ].
Qed.

Lemma search_terms_distinct_witness :
  NoDup (search_terms scenario_finder).
Proof.
  refine (proj1 (proj2 (@search_terms_distinct scenario_finder _))).
  vm_compute. reflexivity.
Defined.

(** ** [search_with_requests] *)

Lemma domain_results_accepted (parsed : list (option Candidate))
  (c : Candidate) :
  In c (domain_results parsed) <->
  In (Some c) parsed /\ link_accepted (link c) = true.
Proof.
  unfold domain_results. rewrite in_flat_map. split.
  - intros ([c'|] & Hin & Hc); [|contradiction].
    destruct (link_accepted (link c')) eqn:E; [|contradiction].
    destruct Hc as [-> | []]. now split.
  - intros [Hin Ha]. exists (Some c). split; [exact Hin|].
    rewrite Ha. now left.
Qed.

(** The results that leave the loop over the domains come from one
    page: that of the first domain answering 200 with an accepted
    entry. *)
Lemma first_domain_results_source (responses : list DomainResponse) :
  (first_domain_results responses = [] /\
   forall parsed, In (DomainPage 200 parsed) responses ->
                  domain_results parsed = [])
  \/ exists before parsed after,
       responses = before ++ DomainPage 200 parsed :: after /\
       first_domain_results responses = domain_results parsed /\
       domain_results parsed <> [] /\
       (forall parsed', In (DomainPage 200 parsed') before ->
                        domain_results parsed' = []).
Proof.
  induction responses as [|r rest IH].
  - left. split; [reflexivity | intros parsed []].
  - assert (first_domain_results (r :: rest) = first_domain_results rest ->
            (forall parsed, r = DomainPage 200 parsed ->
                            domain_results parsed = []) ->
            (first_domain_results (r :: rest) = [] /\
             forall parsed, In (DomainPage 200 parsed) (r :: rest) ->
                            domain_results parsed = [])
            \/ exists before parsed after,
                r :: rest = before ++ DomainPage 200 parsed :: after /\
                first_domain_results (r :: rest) = domain_results parsed /\
                domain_results parsed <> [] /\
                (forall parsed', In (DomainPage 200 parsed') before ->
                                 domain_results parsed' = [])) as Hskip.
    { intros Heq Hr. rewrite Heq.
      destruct IH as [[He Hall] | (before & parsed & after & -> & Hf & Hne & Hb)].
      - left. split; [exact He|]. intros parsed [-> | Hin]; auto.
      - right. exists (r :: before), parsed, after.
        repeat split; try assumption.
        intros parsed' [-> | Hin]; auto. }
    destruct r as [|code parsed].
    + apply Hskip; [reflexivity | discriminate].
    + cbn [first_domain_results] in *.
      destruct (code =? 200) eqn:Ec.
      * apply Z.eqb_eq in Ec. subst code.
        destruct (is_empty (domain_results parsed)) eqn:Ee.
        -- apply is_empty_true in Ee. apply Hskip; [reflexivity|].
           intros parsed' [= <-]. exact Ee.
        -- apply is_empty_false in Ee. right.
           exists [], parsed, rest. repeat split; try assumption.
           intros parsed' [].
      * apply Z.eqb_neq in Ec. apply Hskip; [reflexivity|].
        intros parsed' [= E _]. congruence.
Qed.

Lemma first_domain_results_accepted (responses : list DomainResponse)
  (c : Candidate) :
  In c (first_domain_results responses) -> link_accepted (link c) = true.
Proof.
  destruct (first_domain_results_source responses)
    as [[-> _] | (before & parsed & after & _ & -> & _ & _)].
  - intros [].
  - intros H. now apply domain_results_accepted in H.
Qed.

(** The loop that removes the duplicates: what it adds to
    [unique_results], given that [seen_urls] holds the links of
    [unique_results]. *)
Lemma unique_loop_facts (found : list Candidate) :
  forall seen uniq,
    (forall l, In l seen <-> In l (map link uniq)) ->
    NoDup (map link uniq) ->
    let out := unique_loop found seen uniq in
    NoDup (map link out) /\
    (exists added, out = uniq ++ added /\ incl added found) /\
    (forall c, In c found -> In (link c) (map link out)) /\
    (forall c, In c out -> In c uniq \/
       exists pre post, found = pre ++ c :: post /\
                        ~ In (link c) (map link pre) /\
                        ~ In (link c) (map link uniq)).
Proof.
  induction found as [|r rest IH]; intros seen uniq Hseen Hnd; simpl.
  - repeat split; auto.
    + exists []. split; [now rewrite app_nil_r | intros x []].
    + intros c [].
  - destruct (existsb (pystr_eqb (link r)) seen) eqn:E.
    + apply existsb_exists in E as (l & Hl & Heq).
      apply pystr_eqb_eq in Heq. subst l. apply Hseen in Hl.
      destruct (IH seen uniq Hseen Hnd) as (H1 & (added & H2 & H2') & H3 & H4).
      repeat split.
      * exact H1.
      * exists added. split; [exact H2|]. now apply incl_tl.
      * intros c [<- | Hc]; [|now apply H3].
        rewrite H2, map_app. apply in_or_app. now left.
      * intros c Hc. apply H4 in Hc as [Hc | (pre & post & -> & Hp & Hu)];
          [now left|].
        right. exists (r :: pre), post. repeat split; [|exact Hu].
        simpl. intros [Hr | Hr]; [|contradiction].
        rewrite Hr in Hl. contradiction.
    + assert (~ In (link r) (map link uniq)) as Hnew.
      { intros Hin. apply Hseen in Hin.
        assert (existsb (pystr_eqb (link r)) seen = true) as E'
          by (apply existsb_exists; exists (link r); split;
              [exact Hin | apply pystr_eqb_refl]).
        congruence. }
      destruct (IH (link r :: seen) (uniq ++ [r]))
        as (H1 & (added & H2 & H2') & H3 & H4).
      * intros l. rewrite map_app, in_app_iff. simpl. rewrite Hseen. tauto.
      * rewrite map_app. apply NoDup_app; [exact Hnd | | ].
        -- simpl. constructor; [intros [] | constructor].
        -- intros l Hl [<- | []]. contradiction.
      * repeat split.
        -- exact H1.
        -- exists (r :: added). split.
           ++ rewrite H2, <- app_assoc. reflexivity.
           ++ intros x [<- | Hx]; [now left | right; now apply H2'].
        -- intros c [<- | Hc]; [|now apply H3].
           rewrite H2, !map_app. apply in_or_app. left.
           apply in_or_app. right. now left.
        -- intros c Hc. apply H4 in Hc as [Hc | (pre & post & -> & Hp & Hu)].
           ++ apply in_app_or in Hc as [Hc | [<- | []]]; [now left|].
              right. exists [], rest. repeat split; auto.
           ++ right. exists (r :: pre), post.
              rewrite map_app, in_app_iff in Hu. simpl in Hu.
              repeat split; [|tauto]. simpl. tauto.
Qed.

Lemma search_with_requests_body_facts (self : EANHistoryFinder)
  (respond : pystr -> DomainResponse) :
  let out := search_with_requests_body self respond in
  NoDup (map link out) /\
  (forall c, In c out -> link_accepted (link c) = true).
Proof.
  intros out. subst out. unfold search_with_requests_body.
  destruct (@unique_loop_facts
              (first_domain_results (map respond (google_domains self)))
              [] []) as (H1 & (added & H2 & H2') & _ & _).
  { intros l. simpl. tauto. }
  { constructor. }
  split; [exact H1|]. intros c Hc. rewrite H2 in Hc. simpl in Hc.
  apply H2' in Hc. now apply first_domain_results_accepted in Hc.
Qed.

(** X9.  The candidates returned by [search_with_requests] have pairwise
    distinct links, each starting with [http], free of [google] and not
    empty; no accepted link of the page they come from is lost, and of
    several entries with one link the first is the one returned. *)
Theorem search_with_requests_links (self : EANHistoryFinder)
  (respond : pystr -> DomainResponse) :
  let found := first_domain_results (map respond (google_domains self)) in
  let out := search_with_requests_body self respond in
  NoDup (map link out) /\
  (forall c, In c out ->
     link c <> [] /\ prefixb (u8 "http") (link c) = true /\
     contains (u8 "google") (link c) = false) /\
  (forall c, In c found -> In (link c) (map link out)) /\
  (forall c, In c out ->
     exists pre post, found = pre ++ c :: post /\
                      ~ In (link c) (map link pre)).
Proof.
  intros found out. subst out. unfold search_with_requests_body. fold found.
  destruct (@unique_loop_facts found [] [])
    as (H1 & (added & H2 & H2') & H3 & H4).
  { intros l. simpl. tauto. }
  { constructor. }
  split; [exact H1|]. split; [|split; [exact H3|]].
  - intros c Hc. rewrite H2 in Hc. simpl in Hc. apply H2' in Hc.
    apply first_domain_results_accepted in Hc.
    unfold link_accepted in Hc.
    apply andb_true_iff in Hc as [Hc Hg].
    apply andb_true_iff in Hc as [He Hp].
    apply negb_true_iff in He, Hg. apply is_empty_false in He.
    now repeat split.
  - intros c Hc. apply H4 in Hc as [[] | (pre & post & Hf & Hp & _)].
    exists pre, post. now split.
Qed.

(** X10.  The candidates come from one page, that of the first domain,
    in the order of [google_domains], that answers 200 with an accepted
    entry; when no domain does, the list is empty. *)
Theorem search_with_requests_one_domain (self : EANHistoryFinder)
  (respond : pystr -> DomainResponse) :
  let out := search_with_requests_body self respond in
  (out = [] /\
   forall d parsed, In d (google_domains self) ->
                    respond d = DomainPage 200 parsed ->
                    domain_results parsed = [])
  \/ exists before d after parsed,
       google_domains self = before ++ d :: after /\
       respond d = DomainPage 200 parsed /\
       domain_results parsed <> [] /\
       out <> [] /\
       incl out (domain_results parsed) /\
       (forall d' parsed', In d' before ->
                           respond d' = DomainPage 200 parsed' ->
                           domain_results parsed' = []).
Proof.
  intros out. subst out. unfold search_with_requests_body.
  destruct (@unique_loop_facts
              (first_domain_results (map respond (google_domains self)))
              [] []) as (_ & (added & H2 & H2') & H3 & _).
  { intros l. simpl. tauto. }
  { constructor. }
  destruct (first_domain_results_source (map respond (google_domains self)))
    as [[He Hall] | (before & parsed & after & Hsplit & Hf & Hne & Hb)].
  - left. rewrite He in *. split.
    + rewrite H2. simpl. destruct added as [|x xs]; [reflexivity|].
      destruct (H2' x ltac:(now left)).
    + intros d parsed Hd Hr. apply Hall. rewrite <- Hr. now apply in_map.
  - right.
    apply map_eq_app in Hsplit as (lb & la & Hg & Hlb & Hla).
    destruct la as [|d la]; [discriminate|].
    injection Hla as Hd Hla.
    exists lb, d, la, parsed. rewrite Hf in *.
    repeat split; try assumption.
    + destruct (domain_results parsed) as [|c cs] eqn:E; [congruence|].
      specialize (H3 c ltac:(now left)). intros Hout. rewrite Hout in H3.
      destruct H3.
    + rewrite H2. simpl. exact H2'.
    + intros d' parsed' Hd' Hr. apply Hb. rewrite <- Hlb, <- Hr.
      now apply in_map.
Qed.

(** X11.  [search] submits one analysis for each of the first three
    candidates of a query answered by [search_with_requests]: no
    candidate is skipped for an empty link, and no url is submitted
    twice for one query. *)
Theorem spawned_from_search_with_requests (self : EANHistoryFinder)
  (respond : pystr -> pystr -> DomainResponse) (term : pystr) :
  let answer := fun q => Some (search_with_requests_body self (respond q)) in
  spawned answer term =
    map (fun c => TaskProcessUrl (link c))
      (firstn 3 (search_with_requests_body self (respond term))) /\
  NoDup (spawned answer term) /\
  (length (spawned answer term) <= 3)%nat.
Proof.
  intros answer. subst answer. unfold spawned.
  destruct (search_with_requests_body_facts self (respond term))
    as (Hnd & Hacc).
  set (out := search_with_requests_body self (respond term)) in *.
  assert (forall l : list Candidate,
             (forall c, In c l -> link c <> []) ->
             flat_map (fun c => if is_empty (link c) then []
                                else [TaskProcessUrl (link c)]) l =
             map (fun c => TaskProcessUrl (link c)) l) as Hmap.
  { induction l as [|c l IH]; intros Hl; simpl; [reflexivity|].
    rewrite IH by (intros x Hx; apply Hl; now right).
    destruct (link c) eqn:E; [|reflexivity].
    destruct (Hl c ltac:(now left) E). }
  assert (forall c, In c (firstn 3 out) -> link c <> []) as Hne.
  { intros c Hc.
    assert (link_accepted (link c) = true) as Ha
      by (apply Hacc; rewrite <- (firstn_skipn 3 out);
          apply in_or_app; now left).
    intros E. rewrite E in Ha. discriminate Ha. }
  rewrite (Hmap _ Hne). split; [reflexivity|]. split.
  - rewrite <- (map_map link TaskProcessUrl).
    apply Finite.Injective_map_NoDup; [intros x y [= ->]; reflexivity|].
    rewrite <- firstn_map.
    rewrite <- (firstn_skipn 3 (map link out)) in Hnd.
    eapply NoDup_app_remove_r. exact Hnd.
  - rewrite length_map, length_firstn. lia.
Qed.

(** ** [format_results] and [save_results_to_csv] *)

Lemma assessment_eqb_eq (a b : Assessment) :
  assessment_eqb a b = true <-> a = b.
Proof. destruct a, b; simpl; split; congruence. Qed.

(** The names of the assessments are pairwise distinct. *)
Lemma assessment_name_eqb (a b : Assessment) :
  pystr_eqb (assessment_name a) (assessment_name b) = assessment_eqb a b.
Proof. destruct a, b; vm_compute; reflexivity. Qed.

Lemma empty_groups_of : empty_groups = groups_of (fun _ => []).
Proof. vm_compute. reflexivity. Qed.

Lemma groups_of_ext (g h : Assessment -> list Finding) :
  (forall a, g a = h a) -> groups_of g = groups_of h.
Proof.
  intros H. unfold groups_of, all_assessments. cbn [map]. now rewrite !H.
Qed.

(** Every name that a finding can carry is a key of the report. *)
Lemma group_append_groups (g : Assessment -> list Finding) (f : Finding) :
  group_append (groups_of g) (assessment_name (assessment f)) f =
  Some (groups_of (fun a => if assessment_eqb a (assessment f)
                            then g a ++ [f] else g a)).
Proof.
  unfold groups_of, all_assessments. cbn [map group_append].
  rewrite !assessment_name_eqb.
  destruct (assessment f); cbn [assessment_eqb option_map]; reflexivity.
Qed.

Lemma group_get_groups (g : Assessment -> list Finding) (a : Assessment) :
  group_get (groups_of g) (assessment_name a) = Some (g a).
Proof.
  unfold groups_of, all_assessments. cbn [map group_get].
  rewrite !assessment_name_eqb. destruct a; reflexivity.
Qed.

Lemma group_loop_groups (all : list Finding) :
  forall g,
    group_loop all (groups_of g) =
    Some (groups_of (fun a => g a ++ with_assessment a all)).
Proof.
  induction all as [|f rest IH]; intros g; cbn [group_loop].
  - f_equal. apply groups_of_ext. intros a. unfold with_assessment.
    cbn [filter]. now rewrite app_nil_r.
  - rewrite group_append_groups, IH. f_equal. apply groups_of_ext.
    intros a. unfold with_assessment. cbn [filter].
    destruct (assessment_eqb a (assessment f)) eqn:E.
    + apply assessment_eqb_eq in E. subst a.
      replace (assessment_eqb (assessment f) (assessment f)) with true
        by (symmetry; now apply assessment_eqb_eq).
      now rewrite <- app_assoc.
    + replace (assessment_eqb (assessment f) a) with false; [reflexivity|].
      symmetry. destruct (assessment_eqb (assessment f) a) eqn:E';
        [|reflexivity].
      apply assessment_eqb_eq in E'. subst a.
      assert (assessment_eqb (assessment f) (assessment f) = true)
        by now apply assessment_eqb_eq.
      congruence.
Qed.

Lemma total_with_assessment (all : list Finding) :
  total_findings (groups_of (fun a => with_assessment a all)) =
  Z.of_nat (length all).
Proof.
  unfold total_findings, groups_of, all_assessments, py_sum, with_assessment.
  cbn [map fold_right snd].
  induction all as [|f rest IH]; [reflexivity|].
  cbn [filter]. destruct (assessment f); cbn [assessment_eqb length];
    rewrite ?Nat2Z.inj_succ; cbn [length] in *; lia.
Qed.

Lemma search_total_length (found : list SourceResult) :
  search_total found = Z.of_nat (length (all_result_findings found)).
Proof.
  unfold search_total, all_result_findings, py_sum.
  induction found as [|r rest IH]; [reflexivity|].
  cbn [map fold_right flat_map]. rewrite length_app, IH. lia.
Qed.

Lemma format_results_summary (found : list SourceResult) :
  format_results found =
  Some (if is_empty found then NoResults
        else Summary
               (groups_of (fun a => with_assessment a
                                      (all_result_findings found)))
               (search_total found)).
Proof.
  unfold format_results. destruct (is_empty found); [reflexivity|].
  rewrite empty_groups_of, group_loop_groups. cbn [app].
  now rewrite total_with_assessment, search_total_length.
Qed.

Lemma csv_data_rows (self : EANHistoryFinder) (found : list SourceResult) :
  csv_data self found = map (csv_row self) (all_result_findings found).
Proof.
  unfold csv_data, all_result_findings.
  induction found as [|r rest IH]; [reflexivity|].
  cbn [flat_map]. now rewrite map_app, IH.
Qed.

Lemma filter_map_comm {A B} (f : A -> B) (p : B -> bool) (l : list A) :
  filter p (map f l) = map f (filter (fun x => p (f x)) l).
Proof.
  induction l as [|x l IH]; [reflexivity|]. cbn [map filter].
  destruct (p (f x)); cbn [map]; now rewrite IH.
Qed.

(** X12.  When every finding carries one of the six assessments of
    the program, [format_results] raises no [KeyError]: the names that
    the program writes are keys of the report.  For an empty list of
    results it logs the notice that nothing was found, and neither
    groups nor a total; otherwise each group holds the findings of its
    assessment in the order of the results, and the total is the number
    of findings, the total that [search] logs. *)
Theorem report_groups_every_finding (found : list SourceResult) :
  format_results found =
  Some (if is_empty found then NoResults
        else Summary
               (groups_of (fun a => with_assessment a
                                      (all_result_findings found)))
               (search_total found))
  /\ forall a,
       group_get (groups_of (fun a => with_assessment a
                                        (all_result_findings found)))
         (assessment_name a) =
       Some (with_assessment a (all_result_findings found)).
Proof.
  split; [apply format_results_summary|].
  intros a. apply group_get_groups.
Qed.

(** X13.  [save_results_to_csv] prepares rows exactly when
    [format_results] prints a summary, that is for a non-empty list of
    results.  There are then as many rows as the total of the summary,
    and the rows whose [Evaluacion] is the name of an assessment are the
    rows of the findings of its group, in the same order. *)
Theorem csv_rows_match_report (self : EANHistoryFinder)
  (found : list SourceResult) :
  match format_results found, save_results_to_csv self found with
  | Some NoResults, None => found = []
  | Some (Summary d total), Some rows =>
      found <> [] /\
      Z.of_nat (length rows) = total /\
      forall a,
        option_map (map (csv_row self)) (group_get d (assessment_name a)) =
        Some (filter (fun row => pystr_eqb (csv_Evaluacion row)
                                   (assessment_name a)) rows)
  | _, _ => False
  end.
Proof.
  rewrite format_results_summary. unfold save_results_to_csv.
  destruct found as [|r rest]; [reflexivity|]. cbn [is_empty].
  split; [discriminate|]. split.
  - now rewrite csv_data_rows, length_map, search_total_length.
  - intros a. rewrite group_get_groups. cbn [option_map]. f_equal.
    rewrite csv_data_rows, filter_map_comm. f_equal.
    unfold with_assessment. apply filter_ext. intros f.
    cbn [csv_row csv_Evaluacion]. now rewrite assessment_name_eqb.
Qed.

(** ** The text of a page *)

Lemma occurs_iff (w s : pystr) :
  occurs w s <-> exists pre post, s = pre ++ w ++ post.
Proof.
  split.
  - intros (i & pre & post & H & _). now exists pre, post.
  - intros (pre & post & H). now exists (length pre), pre, post.
Qed.

Lemma occurs_app_mid (w a b : pystr) : occurs w (a ++ w ++ b).
Proof. apply occurs_iff. now exists a, b. Qed.

Lemma occurs_trans (w x s : pystr) : occurs w x -> occurs x s -> occurs w s.
Proof.
  rewrite !occurs_iff. intros (p1 & q1 & ->) (p2 & q2 & ->).
  exists (p2 ++ p1), (q1 ++ q2). now rewrite <- !app_assoc.
Qed.

Lemma occurs_in_left (w a b : pystr) : occurs w a -> occurs w (a ++ b).
Proof.
  intros H. eapply occurs_trans; [exact H|].
  apply occurs_iff. exists [], b. reflexivity.
Qed.

Lemma occurs_in_right (w a b : pystr) : occurs w b -> occurs w (a ++ b).
Proof.
  intros H. eapply occurs_trans; [exact H|].
  apply occurs_iff. exists a, []. now rewrite app_nil_r.
Qed.

Lemma occurs_nil_inv (w : pystr) : occurs w [] -> w = [].
Proof.
  rewrite occurs_iff. intros (pre & post & H). symmetry in H.
  apply app_eq_nil in H as [_ H]. now apply app_eq_nil in H as [H _].
Qed.


(** A word without white space that stands in a text stands on one side
    of any white space of the text. *)
Lemma occurs_cut (w a b : pystr) (c : ascii) :
  w <> [] -> spaceless w -> char_isspace c = true ->
  occurs w (a ++ c :: b) <-> occurs w a \/ occurs w b.
Proof.
  intros Hne Hw Hc. split.
  - rewrite !occurs_iff. intros (pre & post & H).
    apply app_eq_app in H as (l & [[Ha Hr] | [Hp Hr]]).
    + apply app_eq_app in Hr as (l' & [[Hw' Hr'] | [Hl Hr']]).
      * destruct l' as [|c' l'].
        -- left. exists pre, []. rewrite app_nil_r in Hw'. subst.
           now rewrite app_nil_r.
        -- injection Hr' as <- _. subst w.
           unfold spaceless in Hw. rewrite Forall_app in Hw.
           destruct Hw as [_ Hw]. inversion Hw; congruence.
      * left. exists pre, l'. subst. reflexivity.
    + destruct l as [|c' l].
      * simpl in Hr. destruct w as [|c' w]; [congruence|].
        injection Hr as <- _. inversion Hw; congruence.
      * injection Hr as _ Hb. right. exists l, post. exact Hb.
  - intros [H | H].
    + now apply occurs_in_left.
    + apply occurs_in_right. change (c :: b) with ([c] ++ b).
      now apply occurs_in_right.
Qed.

Lemma occurs_blank (w s : pystr) :
  w <> [] -> spaceless w -> blank s -> ~ occurs w s.
Proof.
  intros Hne Hw Hs. induction Hs as [|c s Hc Hs IH].
  - intros H. apply occurs_nil_inv in H. contradiction.
  - intros H. apply (@occurs_cut w [] s c Hne Hw Hc) in H as [H | H].
    + apply occurs_nil_inv in H. contradiction.
    + contradiction.
Qed.

(** White space around a text hides no word. *)
Lemma occurs_trim (w a x b : pystr) :
  w <> [] -> spaceless w -> blank a -> blank b ->
  occurs w (a ++ x ++ b) <-> occurs w x.
Proof.
  intros Hne Hw Ha Hb. split.
  - induction Ha as [|c a Hc Ha IH]; simpl.
    + induction Hb as [|c b Hc Hb IH].
      * now rewrite app_nil_r.
      * intros H. apply (@occurs_cut w x b c Hne Hw Hc) in H as [H | H];
          [exact H|].
        now apply occurs_blank in H.
    + intros H. apply (@occurs_cut w [] (a ++ x ++ b) c Hne Hw Hc) in H
        as [H | H]; [|now apply IH].
      apply occurs_nil_inv in H. contradiction.
  - intros H. apply occurs_in_right, occurs_in_left, H.
Qed.

Lemma linebreak_isspace (c : ascii) :
  is_linebreak c = true -> char_isspace c = true.
Proof.
  unfold is_linebreak, char_isspace, between.
  rewrite !orb_true_iff, !andb_true_iff, !Z.leb_le, !Z.eqb_eq. lia.
Qed.

Lemma space_char_isspace (c : ascii) :
  is_space_char c = true -> char_isspace c = true.
Proof.
  unfold is_space_char, char_isspace, between.
  rewrite !orb_true_iff, !andb_true_iff, !Z.leb_le, !Z.eqb_eq. lia.
Qed.

(** *** [strip] *)


Lemma lstrip_split (s : pystr) :
  exists a, s = a ++ lstrip s /\ blank a /\ starts_clean (lstrip s).
Proof.
  induction s as [|c s (a & Hs & Ha & Hc)]; simpl.
  - exists []. repeat split; constructor.
  - destruct (char_isspace c) eqn:E.
    + exists (c :: a). repeat split; [simpl; congruence | | exact Hc].
      now constructor.
    + exists []. repeat split; [constructor | exact E].
Qed.

Lemma lstrip_clean (s : pystr) : starts_clean s -> lstrip s = s.
Proof. destruct s as [|c s]; simpl; [reflexivity|]. now intros ->. Qed.

Lemma blank_rev (s : pystr) : blank s -> blank (rev s).
Proof. apply Forall_rev. Qed.

(** [strip] takes white space off the two ends, and nothing else. *)
Lemma strip_split (s : pystr) :
  exists a b, s = a ++ strip s ++ b /\ blank a /\ blank b /\
              starts_clean (strip s) /\ starts_clean (rev (strip s)).
Proof.
  unfold strip.
  destruct (lstrip_split s) as (a & Hs & Ha & Hc).
  destruct (lstrip_split (rev (lstrip s))) as (b & Hr & Hb & Hc').
  exists a, (rev b).
  assert (lstrip s = rev (lstrip (rev (lstrip s))) ++ rev b) as Hy.
  { rewrite <- rev_app_distr, <- Hr. now rewrite rev_involutive. }
  split; [|split; [exact Ha | split; [now apply blank_rev | split]]].
  - rewrite <- Hy. exact Hs.
  - destruct (rev (lstrip (rev (lstrip s)))) as [|c z] eqn:E; [exact I|].
    rewrite Hy in Hc. exact Hc.
  - now rewrite rev_involutive.
Qed.

Lemma strip_idempotent (s : pystr) : strip (strip s) = strip s.
Proof.
  destruct (strip_split s) as (_ & _ & _ & _ & _ & H1 & H2).
  unfold strip at 1. rewrite (lstrip_clean _ H1), (lstrip_clean _ H2).
  apply rev_involutive.
Qed.

Lemma strip_occurs (w s : pystr) :
  w <> [] -> spaceless w -> occurs w (strip s) <-> occurs w s.
Proof.
  intros Hne Hw.
  destruct (strip_split s) as (a & b & Hs & Ha & Hb & _).
  rewrite Hs at 2. symmetry. now apply occurs_trim.
Qed.

Lemma strip_infix (s : pystr) : occurs (strip s) s.
Proof.
  destruct (strip_split s) as (a & b & Hs & _). rewrite Hs at 2.
  apply occurs_app_mid.
Qed.

(** *** [splitlines] *)


(** After a line boundary the scan goes on with an empty line, past the
    line feed that follows a carriage return. *)
Lemma splitlines_from_break (c : ascii) (rest current : pystr) :
  is_linebreak c = true ->
  exists rest',
    splitlines_from (c :: rest) current =
      current :: splitlines_from rest' [] /\
    (rest' = rest \/
     exists c2, rest = c2 :: rest' /\ is_linebreak c2 = true /\
                ord c = 13 /\ ord c2 = 10).
Proof.
  intros Hc. cbn [splitlines_from]. rewrite Hc.
  destruct rest as [|c2 rest2]; [exists []; split; [reflexivity | now left]|].
  destruct ((ord c =? 13) && (ord c2 =? 10)) eqn:E.
  - exists rest2. split; [reflexivity|]. right. exists c2.
    apply andb_true_iff in E as [E1 E2].
    apply Z.eqb_eq in E1, E2. repeat split; try assumption.
    unfold is_linebreak, between. rewrite E2. reflexivity.
  - exists (c2 :: rest2). split; [reflexivity | now left].
Qed.

Lemma splitlines_from_keep (c : ascii) (rest current : pystr) :
  is_linebreak c = false ->
  splitlines_from (c :: rest) current = splitlines_from rest (current ++ [c]).
Proof. intros Hc. cbn [splitlines_from]. now rewrite Hc. Qed.

Section Word.

Variable w : pystr.
Hypothesis w_nonempty : w <> [].
Hypothesis w_spaceless : spaceless w.

Lemma occurs_skip_space (c : ascii) (s : pystr) :
  char_isspace c = true -> occurs w (c :: s) <-> occurs w s.
Proof.
  intros Hc. rewrite (@occurs_cut w [] s c w_nonempty w_spaceless Hc).
  split; [|now right]. intros [H | H]; [|exact H].
  apply occurs_nil_inv in H. contradiction.
Qed.

(** A word stands in the text exactly when it stands in one line. *)
Lemma splitlines_from_occurs (n : nat) :
  forall s current,
    (length s <= n)%nat ->
    (exists line, In line (splitlines_from s current) /\ occurs w line)
    <-> occurs w (current ++ s).
Proof.
  induction n as [|n IH]; intros s current Hn.
  - destruct s; [|simpl in Hn; lia]. cbn [splitlines_from].
    rewrite app_nil_r. destruct current as [|c cur]; cbn [is_empty].
    + split; [intros (l & [] & _)|]. intros H.
      apply occurs_nil_inv in H. contradiction.
    + split; [intros (l & [<- | []] & H); exact H|].
      intros H. eexists. split; [now left | exact H].
  - destruct s as [|c rest].
    + apply (IH [] current). simpl. lia.
    + simpl in Hn. destruct (is_linebreak c) eqn:Hc.
      * destruct (@splitlines_from_break c rest current Hc)
          as (rest' & -> & Hrest).
        rewrite (@occurs_cut w current rest c w_nonempty w_spaceless
                   (@linebreak_isspace c Hc)).
        assert (occurs w rest' <-> occurs w rest) as Hskip.
        { destruct Hrest as [-> | (c2 & -> & Hc2 & _)]; [reflexivity|].
          symmetry. apply occurs_skip_space. now apply linebreak_isspace. }
        assert (length rest' <= n)%nat as Hlen
          by (destruct Hrest as [-> | (c2 & -> & _)]; simpl in *; lia).
        rewrite <- Hskip, <- (IH rest' [] Hlen). cbn [app In]. split.
        -- intros (l & [<- | Hl] & H); [now left | right; now exists l].
        -- intros [H | (l & Hl & H)];
             [exists current | exists l]; split; auto.
      * rewrite (@splitlines_from_keep c rest current Hc).
        rewrite (IH rest (current ++ [c])) by lia.
        now rewrite <- app_assoc.
Qed.

(** *** [split] at double spaces *)

Lemma split_from_occurs (n : nat) :
  forall s current,
    (length s <= n)%nat ->
    (exists piece, In piece (split_double_space_from s current)
                   /\ occurs w piece)
    <-> occurs w (current ++ s).
Proof.
  induction n as [|n IH]; intros s current Hn.
  - destruct s; [|simpl in Hn; lia]. cbn [split_double_space_from].
    rewrite app_nil_r. split; [intros (l & [<- | []] & H); exact H|].
    intros H. eexists. split; [now left | exact H].
  - destruct s as [|c rest]; [apply (IH [] current); simpl; lia|].
    simpl in Hn. cbn [split_double_space_from].
    destruct rest as [|c2 rest2].
    + rewrite (IH [] (current ++ [c])) by (simpl; lia).
      now rewrite app_nil_r.
    + destruct (is_space_char c && is_space_char c2) eqn:E.
      * apply andb_true_iff in E as [E1 E2].
        apply space_char_isspace in E1, E2.
        rewrite (@occurs_cut w current (c2 :: rest2) c w_nonempty
                   w_spaceless E1).
        rewrite (@occurs_skip_space c2 rest2 E2).
        rewrite <- (IH rest2 []) by (simpl in Hn; lia). cbn [In]. split.
        -- intros (l & [<- | Hl] & H); [now left | right; now exists l].
        -- intros [H | (l & Hl & H)];
             [exists current | exists l]; split; auto.
      * rewrite (IH (c2 :: rest2) (current ++ [c])) by (simpl in *; lia).
        now rewrite <- app_assoc.
Qed.

(** *** [join] *)

Lemma join_occurs (parts : list pystr) :
  occurs w (join [newline] parts)
  <-> exists part, In part parts /\ occurs w part.
Proof.
  induction parts as [|p rest IH]; cbn [join].
  - split; [|intros (x & [] & _)]. intros H.
    apply occurs_nil_inv in H. contradiction.
  - destruct rest as [|q rest].
    + split; [intros H; exists p; split; [now left | exact H]|].
      intros (x & [<- | []] & H). exact H.
    + change (p ++ [newline] ++ join [newline] (q :: rest))
        with (p ++ newline :: join [newline] (q :: rest)).
      rewrite (@occurs_cut w p _ newline w_nonempty w_spaceless
                 ltac:(reflexivity)).
      rewrite IH. split.
      * intros [H | (x & Hx & H)];
          [exists p; split; [now left | exact H]
          | exists x; split; [now right | exact H]].
      * intros (x & [<- | Hx] & H); [now left | right; now exists x].
Qed.

Lemma text_chunks_occurs (text : pystr) :
  (exists chunk, In chunk (text_chunks text) /\ occurs w chunk)
  <-> occurs w text.
Proof.
  unfold text_chunks.
  rewrite <- (@splitlines_from_occurs (length text) text [] (le_n _)).
  fold (splitlines text). split.
  - intros (chunk & Hin & Hocc).
    apply filter_In in Hin as [Hin _].
    apply in_flat_map in Hin as (line' & Hline' & Hpiece).
    apply in_map_iff in Hline' as (line & <- & Hline).
    apply in_map_iff in Hpiece as (piece & <- & Hpiece).
    exists line. split; [exact Hline|].
    apply (@strip_occurs w line w_nonempty w_spaceless).
    apply (@split_from_occurs (length (strip line)) (strip line) []
             (le_n _)).
    exists piece. split; [exact Hpiece|].
    now apply (@strip_occurs w piece w_nonempty w_spaceless).
  - intros (line & Hline & Hocc).
    apply (@strip_occurs w line w_nonempty w_spaceless) in Hocc.
    apply (@split_from_occurs (length (strip line)) (strip line) []
             (le_n _)) in Hocc as (piece & Hpiece & Hocc).
    apply (@strip_occurs w piece w_nonempty w_spaceless) in Hocc.
    exists (strip piece). split; [|exact Hocc].
    apply filter_In. split.
    + apply in_flat_map. exists (strip line). split.
      * now apply in_map.
      * now apply in_map.
    + destruct (strip piece); [|reflexivity].
      apply occurs_nil_inv in Hocc. contradiction.
Qed.

Lemma clean_text_occurs (text : pystr) :
  occurs w (clean_text text) <-> occurs w text.
Proof.
  unfold clean_text. rewrite join_occurs. apply text_chunks_occurs.
Qed.

End Word.

(** *** The lines of the cleaned text *)

Lemma occurs_Forall (P : ascii -> Prop) (p q : pystr) :
  occurs p q -> Forall P q -> Forall P p.
Proof.
  rewrite occurs_iff. intros (a & b & ->) H.
  apply Forall_app in H as [_ H]. now apply Forall_app in H as [H _].
Qed.

Lemma occurs_refl (s : pystr) : occurs s s.
Proof. apply occurs_iff. exists [], []. now rewrite app_nil_r. Qed.

Lemma splitlines_from_unbroken (n : nat) :
  forall s current,
    (length s <= n)%nat -> unbroken current ->
    Forall unbroken (splitlines_from s current).
Proof.
  induction n as [|n IH]; intros s current Hn Hcur.
  - destruct s; [|simpl in Hn; lia]. cbn [splitlines_from].
    destruct (is_empty current); repeat constructor. exact Hcur.
  - destruct s as [|c rest]; [apply IH; [simpl; lia | exact Hcur]|].
    simpl in Hn. destruct (is_linebreak c) eqn:Hc.
    + destruct (@splitlines_from_break c rest current Hc)
        as (rest' & -> & Hrest).
      constructor; [exact Hcur|]. apply IH; [|constructor].
      destruct Hrest as [-> | (c2 & -> & _)]; simpl in *; lia.
    + rewrite (@splitlines_from_keep c rest current Hc).
      apply IH; [lia|]. apply Forall_app. split; [exact Hcur|].
      repeat constructor. exact Hc.
Qed.

Lemma split_from_infix (n : nat) :
  forall s current piece,
    (length s <= n)%nat ->
    In piece (split_double_space_from s current) ->
    occurs piece (current ++ s).
Proof.
  induction n as [|n IH]; intros s current piece Hn Hin.
  - destruct s; [|simpl in Hn; lia]. destruct Hin as [<- | []].
    rewrite app_nil_r. apply occurs_refl.
  - destruct s as [|c rest]; [apply (IH [] current); [simpl; lia | exact Hin]|].
    simpl in Hn. cbn [split_double_space_from] in Hin.
    destruct rest as [|c2 rest2].
    + apply (IH [] (current ++ [c])) in Hin; [|simpl; lia].
      now rewrite app_nil_r in Hin.
    + destruct (is_space_char c && is_space_char c2).
      * destruct Hin as [<- | Hin].
        -- apply occurs_in_left. apply occurs_refl.
        -- apply (IH rest2 []) in Hin; [|simpl in Hn; lia].
           apply occurs_in_right.
           change (c :: c2 :: rest2) with ([c; c2] ++ rest2).
           now apply occurs_in_right.
      * apply (IH (c2 :: rest2) (current ++ [c])) in Hin; [|simpl in *; lia].
        now rewrite <- app_assoc in Hin.
Qed.

Lemma space_char_eq (c : ascii) : is_space_char c = true <-> c = " "%char.
Proof.
  unfold is_space_char. rewrite Z.eqb_eq. split.
  - intros H. now apply ord_inj.
  - now intros ->.
Qed.

Lemma occurs_length (p q : pystr) :
  occurs p q -> (length p <= length q)%nat.
Proof.
  rewrite occurs_iff. intros (a & b & ->). rewrite !length_app. lia.
Qed.

(** Two characters that end a text either stand in it earlier or are
    its last two. *)
Lemma occurs_two_snoc (a b z : ascii) (x : pystr) :
  occurs [a; b] (x ++ [z]) ->
  occurs [a; b] x \/ ((exists x', x = x' ++ [a]) /\ b = z).
Proof.
  rewrite !occurs_iff. intros (pre & post & H).
  destruct post as [|p post'] using rev_ind.
  - right. rewrite app_nil_r in H.
    change (pre ++ [a; b]) with (pre ++ [a] ++ [b]) in H.
    rewrite app_assoc in H. apply app_inj_tail in H as [-> ->].
    split; [now exists pre | reflexivity].
  - left. clear IHpost'. rewrite !app_assoc in H.
    apply app_inj_tail in H as [-> _]. exists pre, post'.
    now rewrite <- app_assoc.
Qed.

Lemma split_from_no_double (n : nat) :
  forall s current piece,
    (length s <= n)%nat ->
    ~ occurs double_space (current ++ firstn 1 s) ->
    In piece (split_double_space_from s current) ->
    ~ occurs double_space piece.
Proof.
  induction n as [|n IH]; intros s current piece Hn Hcur Hin.
  - destruct s; [|simpl in Hn; lia]. destruct Hin as [<- | []].
    now rewrite app_nil_r in Hcur.
  - destruct s as [|c rest];
      [apply (IH [] current); [simpl; lia | exact Hcur | exact Hin]|].
    simpl in Hn. cbn [split_double_space_from] in Hin.
    cbn [firstn] in Hcur.
    destruct rest as [|c2 rest2].
    + apply (IH [] (current ++ [c])) in Hin;
        [exact Hin | simpl; lia | now rewrite app_nil_r].
    + destruct (is_space_char c && is_space_char c2) eqn:E.
      * destruct Hin as [<- | Hin].
        -- intros H. apply Hcur. now apply occurs_in_left.
        -- apply (IH rest2 []) in Hin; [exact Hin | simpl in Hn; lia|].
           intros H. apply occurs_length in H.
           destruct rest2; simpl in H; lia.
      * apply (IH (c2 :: rest2) (current ++ [c])) in Hin;
          [exact Hin | simpl in *; lia|].
        cbn [firstn]. intros H.
        apply (@occurs_two_snoc " " " " c2 (current ++ [c])) in H
          as [H | [(x' & Hx) <-]]; [contradiction|].
        apply app_inj_tail in Hx as [_ ->].
        discriminate E.
Qed.


Lemma text_chunks_clean (text : pystr) :
  Forall clean_chunk (text_chunks text).
Proof.
  apply Forall_forall. intros chunk Hin. unfold text_chunks in Hin.
  apply filter_In in Hin as [Hin Hne].
  apply in_flat_map in Hin as (line' & Hline' & Hpiece).
  apply in_map_iff in Hline' as (line & <- & Hline).
  apply in_map_iff in Hpiece as (piece & <- & Hpiece).
  split; [|split; [|split]].
  - destruct (strip piece); [discriminate | discriminate].
  - apply strip_idempotent.
  - intros H.
    apply (@split_from_no_double (length (strip line)) (strip line) [] piece
             (le_n _)); [| exact Hpiece |].
    + intros H'. apply occurs_length in H'.
      destruct (strip line); simpl in H'; lia.
    + eapply occurs_trans; [exact H | apply strip_infix].
  - apply (@occurs_Forall _ (strip piece) line).
    + eapply occurs_trans; [apply strip_infix|].
      eapply occurs_trans; [|apply strip_infix].
      apply (@split_from_infix (length (strip line)) (strip line) [] piece
               (le_n _) Hpiece).
    + pose proof (@splitlines_from_unbroken (length text) text []
                    (le_n _) ltac:(constructor)) as H.
      rewrite Forall_forall in H. now apply H.
Qed.

Lemma splitlines_from_app (c : pystr) :
  forall s current,
    unbroken c ->
    splitlines_from (c ++ s) current = splitlines_from s (current ++ c).
Proof.
  induction c as [|x c IH]; intros s current Hc; simpl app.
  - now rewrite app_nil_r.
  - inversion Hc as [|? ? Hx Hc']; subst.
    rewrite (@splitlines_from_keep x (c ++ s) current Hx), IH by assumption.
    now rewrite <- app_assoc.
Qed.

Lemma splitlines_join (chunks : list pystr) :
  Forall clean_chunk chunks ->
  splitlines (join [newline] chunks) = chunks.
Proof.
  unfold splitlines. induction chunks as [|c rest IH]; intros H;
    [reflexivity|].
  inversion H as [|? ? (Hne & _ & _ & Hc) Hrest]; subst.
  cbn [join]. destruct rest as [|q rest].
  - rewrite <- (app_nil_r c) at 1.
    rewrite (@splitlines_from_app c [] [] Hc). cbn [splitlines_from app].
    destruct c; [congruence | reflexivity].
  - rewrite (@splitlines_from_app c _ [] Hc). cbn [app].
    change ([newline] ++ join [newline] (q :: rest))
      with (newline :: join [newline] (q :: rest)).
    destruct (@splitlines_from_break newline (join [newline] (q :: rest)) c
                ltac:(reflexivity)) as (rest' & -> & Hrest').
    destruct Hrest' as [-> | (c2 & _ & _ & Habs & _)];
      [|vm_compute in Habs; discriminate].
    now rewrite IH.
Qed.

Lemma split_from_whole (n : nat) :
  forall s current,
    (length s <= n)%nat -> ~ occurs double_space s ->
    split_double_space_from s current = [current ++ s].
Proof.
  induction n as [|n IH]; intros s current Hn Hs.
  - destruct s; [|simpl in Hn; lia]. now rewrite app_nil_r.
  - destruct s as [|c rest]; [now rewrite app_nil_r|].
    simpl in Hn. cbn [split_double_space_from].
    assert (~ occurs double_space rest) as Hrest.
    { intros H. apply Hs. change (c :: rest) with ([c] ++ rest).
      now apply occurs_in_right. }
    destruct rest as [|c2 rest2].
    + rewrite (IH [] (current ++ [c])) by (simpl; lia || exact Hrest).
      now rewrite app_nil_r.
    + destruct (is_space_char c && is_space_char c2) eqn:E.
      * exfalso. apply andb_true_iff in E as [E1 E2].
        apply space_char_eq in E1, E2. subst. apply Hs.
        change (" "%char :: " "%char :: rest2) with (double_space ++ rest2).
        apply occurs_in_left, occurs_refl.
      * rewrite (IH (c2 :: rest2) (current ++ [c])) by (simpl in *; lia || exact Hrest).
        now rewrite <- app_assoc.
Qed.

Lemma clean_chunks_fixed (chunks : list pystr) :
  Forall clean_chunk chunks ->
  filter (fun chunk => negb (is_empty chunk))
    (flat_map (fun line => map strip (split_double_space line))
       (map strip chunks)) = chunks.
Proof.
  intros H.
  induction H as [|c rest (Hne & Hstrip & Hd & _) Hrest IH]; [reflexivity|].
  rewrite map_cons.
  change (flat_map (fun line => map strip (split_double_space line))
            (strip c :: map strip rest))
    with (map strip (split_double_space (strip c))
          ++ flat_map (fun line => map strip (split_double_space line))
               (map strip rest)).
  unfold pystr in *. rewrite filter_app, IH, Hstrip.
  unfold split_double_space.
  rewrite (@split_from_whole (length c) c [] (le_n _) Hd).
  cbn [app map]. rewrite Hstrip.
  destruct c; [congruence | reflexivity].
Qed.

Lemma text_chunks_join (chunks : list pystr) :
  Forall clean_chunk chunks ->
  text_chunks (join [newline] chunks) = chunks.
Proof.
  intros H. unfold text_chunks. rewrite (splitlines_join H).
  cbv zeta. now apply clean_chunks_fixed.
Qed.

(** X14.  Every line of the text that [extract_content_from_url] returns
    is a chunk of the page: not empty, without white space at its ends,
    without two spaces in a row. *)
Theorem clean_text_lines (text : pystr) :
  splitlines (clean_text text) = text_chunks text /\
  Forall (fun line => line <> [] /\ strip line = line /\
                      ~ occurs double_space line)
    (splitlines (clean_text text)).
Proof.
  pose proof (text_chunks_clean text) as H.
  assert (splitlines (clean_text text) = text_chunks text) as E
    by (apply splitlines_join, H).
  split; [exact E|]. rewrite E.
  eapply Forall_impl; [|exact H]. intros l (H1 & H2 & H3 & _). auto.
Qed.

(** X15.  Cleaning a text that is already clean changes nothing. *)
Theorem clean_text_idempotent (text : pystr) :
  clean_text (clean_text text) = clean_text text.
Proof.
  unfold clean_text.
  now rewrite (text_chunks_join (text_chunks_clean text)).
Qed.

(** X16.  Cleaning neither loses nor creates a word: a non-empty string
    without white space stands in the cleaned text exactly when it
    stands in the text of the page. *)
Theorem clean_text_keeps_words (w text : pystr) :
  w <> [] -> spaceless w ->
  occurs w (clean_text text) <-> occurs w text.
Proof. intros Hne Hw. now apply clean_text_occurs. Qed.

Lemma clean_text_keeps_words_witness :
  occurs scenario_code
    (clean_text (u8 "  Oferta   EAN  1234567890123   agotado  ")).
Proof.
  apply (proj2 (@clean_text_keeps_words scenario_code
                  (u8 "  Oferta   EAN  1234567890123   agotado  ")
                  ltac:(discriminate)
                  ltac:(vm_compute; repeat constructor))).
  apply contains_occurs. vm_compute. reflexivity.
Defined.

(** ** [_process_url] on the text of a page *)

Lemma digits_spaceless (s : pystr) :
  forallb char_isdigit s = true -> spaceless s.
Proof.
  intros H. apply Forall_forall. intros c Hc.
  rewrite forallb_forall in H. specialize (H c Hc).
  unfold char_isdigit, char_isdecimal, char_isspace, between in *.
  rewrite !orb_true_iff, !andb_true_iff, !Z.leb_le, !Z.eqb_eq in H.
  apply not_true_is_false. 
  rewrite !orb_true_iff, !andb_true_iff, !Z.leb_le, !Z.eqb_eq. lia.
Qed.

Lemma analyze_content_some_iff (self : EANHistoryFinder)
  (content source : pystr) :
  ean self <> [] ->
  (exists r, analyze_content self content source = Some r)
  <-> occurs (ean self) content.
Proof.
  intros Hcode. split.
  - intros (r & Hr). eapply analyze_content_occurs; eassumption.
  - intros Hocc. eexists. apply analyze_content_some.
    split; [eapply occurs_nonempty; eassumption|].
    split; [|reflexivity].
    destruct (all_findings_cases (ean self) content source)
      as [(_ & -> & H) | [(_ & _ & ->) | (_ & Hc & _)]];
      [assumption | discriminate |].
    apply contains_occurs in Hocc. congruence.
Qed.

(** X17.  For a non-empty code without white space, the analysis of a
    url gives a result, with at least one finding and the url of the
    page, exactly when the page is answered with status 200 and the
    code stands in its text: the cleaning of the text in between hides
    no code. *)
Theorem process_url_finds_code (self : EANHistoryFinder)
  (fetch : pystr -> PageResponse) (target : pystr) :
  ean self <> [] -> spaceless (ean self) ->
  (exists r,
     _process_url (fun u => extract_content (fetch u)) self target = Some r
     /\ findings r <> [] /\ sr_url r = target)
  <-> exists text, fetch target = PageText 200 text
                   /\ occurs (ean self) text.
Proof.
  intros Hne Hw. unfold _process_url, extract_content.
  destruct (fetch target) as [|code text] eqn:Ef.
  - cbn [is_empty negb]. split; [intros (r & H & _); discriminate|].
    intros (text & H & _). discriminate.
  - destruct (code =? 200) eqn:Ec.
    + apply Z.eqb_eq in Ec. subst code.
      pose proof (@clean_text_occurs (ean self) Hne Hw text) as Hclean.
      destruct (is_empty (clean_text text)) eqn:Ee; cbn [negb].
      * apply is_empty_true in Ee. rewrite Ee in Hclean.
        split; [intros (r & H & _); discriminate|].
        intros (text' & [= <-] & H). apply Hclean in H.
        apply occurs_nil_inv in H. contradiction.
      * split.
        -- intros (r & Hr & _). exists text. split; [reflexivity|].
           apply Hclean. eapply analyze_content_occurs; eassumption.
        -- intros (text' & [= <-] & Hocc). apply Hclean in Hocc.
           apply (@analyze_content_some_iff self (clean_text text) target Hne)
             in Hocc as (r & Hr).
           exists r. split; [exact Hr|].
           apply analyze_content_some in Hr as (_ & Hf & ->).
           split; [exact Hf | reflexivity].
    + cbn [is_empty negb]. split; [intros (r & H & _); discriminate|].
      intros (text' & [= E _] & _). apply Z.eqb_neq in Ec. congruence.
Qed.

Lemma process_url_finds_code_witness :
  exists r,
    _process_url
      (fun u => extract_content
                  (PageText 200
                     (u8 "  Oferta   EAN  1234567890123   agotado  ")))
      scenario_finder scenario_url = Some r
    /\ findings r <> [] /\ sr_url r = scenario_url.
Proof.
  apply (proj2 (@process_url_finds_code scenario_finder
                  (fun _ => PageText 200
                     (u8 "  Oferta   EAN  1234567890123   agotado  "))
                  scenario_url ltac:(discriminate)
                  ltac:(vm_compute; repeat constructor))).
  eexists. split; [reflexivity|].
  apply contains_occurs. vm_compute. reflexivity.
Defined.

(** ** The words of a cleaned snippet *)

Section CollapseWord.

Variable w : pystr.
Hypothesis w_nonempty : w <> [].
Hypothesis w_spaceless : spaceless w.

Lemma collapse_from_occurs (s : pystr) :
  (forall u, occurs w (u ++ collapse_from s false) <-> occurs w (u ++ s)) /\
  (occurs w (collapse_from s true) <-> occurs w s).
Proof.
  induction s as [|c rest [IH1 IH2]]; [split; reflexivity|].
  cbn [collapse_from]. destruct (char_isspace c) eqn:Hc.
  - split.
    + intros u.
      rewrite (@occurs_cut w u (collapse_from rest true) " "%char
                 w_nonempty w_spaceless ltac:(reflexivity)).
      rewrite (@occurs_cut w u rest c w_nonempty w_spaceless Hc).
      now rewrite IH2.
    + rewrite IH2. symmetry.
      apply (@occurs_skip_space w w_nonempty w_spaceless c rest Hc).
  - split.
    + intros u. specialize (IH1 (u ++ [c])).
      now rewrite <- !app_assoc in IH1.
    + apply (IH1 [c]).
Qed.

(** The cleaning of a snippet neither hides nor makes up a word. *)
Lemma clean_snippet_occurs (context : pystr) :
  occurs w (clean_snippet context) <-> occurs w context.
Proof.
  rewrite clean_snippet_collapse.
  rewrite (@strip_occurs w (collapse context) w_nonempty w_spaceless).
  apply (proj1 (collapse_from_occurs context) []).
Qed.

End CollapseWord.

Lemma collapse_from_only_spaces (s : pystr) :
  forall b, Forall (fun c => char_isspace c = true -> c = " "%char)
              (collapse_from s b).
Proof.
  induction s as [|c rest IH]; intros b; cbn [collapse_from]; [constructor|].
  destruct (char_isspace c) eqn:Hc.
  - destruct b; [apply IH|]. constructor; [reflexivity | apply IH].
  - constructor; [congruence | apply IH].
Qed.

Lemma collapse_from_starts_clean (s : pystr) :
  starts_clean (collapse_from s true).
Proof.
  induction s as [|c rest IH]; cbn [collapse_from]; [exact I|].
  destruct (char_isspace c) eqn:Hc; [exact IH | exact Hc].
Qed.

Lemma occurs_two_cons (a b c : ascii) (x : pystr) :
  occurs [a; b] (c :: x) ->
  (c = a /\ exists x', x = b :: x') \/ occurs [a; b] x.
Proof.
  rewrite !occurs_iff. intros (pre & post & H).
  destruct pre as [|p pre].
  - left. injection H as -> ->. split; [reflexivity | now exists post].
  - right. injection H as _ ->. now exists pre, post.
Qed.

Lemma collapse_from_no_double (s : pystr) :
  forall b, ~ occurs double_space (collapse_from s b).
Proof.
  induction s as [|c rest IH]; intros b; cbn [collapse_from].
  - intros H. apply occurs_length in H. simpl in H. lia.
  - destruct (char_isspace c) eqn:Hc.
    + destruct b; [apply IH|]. intros H.
      apply (@occurs_two_cons " " " " " " (collapse_from rest true)) in H
        as [[_ (x' & Hx)] | H]; [|now apply IH in H].
      pose proof (collapse_from_starts_clean rest) as Hs.
      rewrite Hx in Hs. discriminate Hs.
    + intros H.
      apply (@occurs_two_cons " " " " c (collapse_from rest false)) in H
        as [[-> _] | H]; [discriminate Hc | now apply IH in H].
Qed.

Lemma collapse_from_length (s : pystr) :
  forall b, (length (collapse_from s b) <= length s)%nat.
Proof.
  induction s as [|c rest IH]; intros b; cbn [collapse_from]; [simpl; lia|].
  destruct (char_isspace c); [destruct b|]; simpl;
    first [ specialize (IH true); lia | specialize (IH false); lia ].
Qed.

(** A cleaned snippet is normalized and no longer than its window. *)
Lemma clean_snippet_normalized (context : pystr) :
  normalized (clean_snippet context) /\
  (length (clean_snippet context) <= length context)%nat.
Proof.
  rewrite clean_snippet_collapse. unfold collapse. split; [split; [|split]|].
  - apply strip_idempotent.
  - intros H. apply (@collapse_from_no_double context false).
    eapply occurs_trans; [exact H | apply strip_infix].
  - eapply occurs_Forall; [apply strip_infix|].
    apply collapse_from_only_spaces.
  - pose proof (occurs_length (strip_infix (collapse_from context false))).
    pose proof (collapse_from_length context false). lia.
Qed.

(** ** Where a mention holds the code *)

Local Open Scope nat_scope.

Section LiteralInside.

Variable ignorecase : bool.
Variable txt : pystr.

(** A pattern that needs the literal [w] matches a span that holds a
    match of [w]. *)
Lemma matches_literal_inside (w : pystr) (r : regex) :
  needs_literal w r = true ->
  forall i g e g',
    In (e, g') (matches ignorecase txt r i g) ->
    i <= length txt ->
    exists j, i <= j /\ j + length w <= e /\
              lit_prefix ignorecase w (skipn j txt) = true.
Proof.
  induction r as [ | p | cs | cs lo hi greedy | a IHa b IHb | a IHa b IHb
                 | r IH | | cs | ]; simpl; try discriminate;
    intros Hneed i g e g' Hin Hi.
  - apply pystr_eqb_eq in Hneed as ->.
    destruct (lit_prefix ignorecase w (skipn i txt)) eqn:E; [|contradiction].
    destruct Hin as [[= <- <-] | []]. exists i. repeat split; (lia || exact E).
  - apply in_flat_map in Hin as ([j1 g1] & Ha & Hb). cbn [fst snd] in Hb.
    pose proof (@matches_bounds ignorecase txt a i g j1 g1 Ha Hi) as Hba.
    pose proof (@matches_bounds ignorecase txt b j1 g1 e g' Hb ltac:(lia))
      as Hbb.
    apply orb_true_iff in Hneed as [H | H].
    + destruct (IHa H i g j1 g1 Ha Hi) as (j & H1 & H2 & H3).
      exists j. repeat split; (lia || exact H3).
    + destruct (IHb H j1 g1 e g' Hb ltac:(lia)) as (j & H1 & H2 & H3).
      exists j. repeat split; (lia || exact H3).
  - apply andb_true_iff in Hneed as [H1 H2].
    apply in_app_or in Hin as [H | H];
      [eapply IHa | eapply IHb]; eassumption.
  - apply in_map_iff in Hin as ([j1 g1] & [= <- <-] & H).
    cbn [fst]. eapply IH; eassumption.
Qed.

End LiteralInside.

(** The code stands inside every mention. *)
Lemma mention_holds_code (code content : pystr) (mt : Match) :
  In mt (mentions code content) ->
  exists j, m_start mt <= j /\ j + length code <= m_end mt /\
            m_end mt <= length content /\ occurs_at code content j.
Proof.
  intros H. apply in_flat_map in H as (pat & Hpat & Hmt).
  apply finditer_in in Hmt as (j0 & [e g] & -> & Hm & Hj0).
  pose proof (ean_patterns_need_code code) as Hneed.
  rewrite forallb_forall in Hneed.
  destruct (@matches_literal_inside false content code pat (Hneed _ Hpat)
              _ _ _ _ Hm Hj0) as (j & H1 & H2 & Hlit).
  pose proof (@matches_bounds false content pat j0 None e g Hm Hj0) as Hb.
  rewrite lit_prefix_exact in Hlit.
  exists j. cbn [mk_match m_start m_end fst]. repeat split; try lia.
  apply prefixb_skipn_occurs; [lia | exact Hlit].
Qed.

Lemma occurs_at_slice (code content : pystr) (j a b : nat) :
  occurs_at code content j -> a <= j -> j + length code <= b ->
  occurs code (firstn (b - a) (skipn a content)).
Proof.
  intros (pre & post & -> & <-) Ha Hb.
  rewrite skipn_app. replace (a - length pre) with 0 by lia.
  rewrite skipn_O, firstn_app, length_skipn.
  rewrite (@firstn_all2 ascii (b - a) (skipn a pre))
    by (rewrite length_skipn; lia).
  rewrite firstn_app.
  rewrite (@firstn_all2 ascii (b - a - (length pre - a)) code) by lia.
  apply occurs_iff. eexists _, _. reflexivity.
Qed.

Local Open Scope Z_scope.

Lemma window_holds_code (code content : pystr) (mt : Match) :
  In mt (mentions code content) -> occurs code (window content mt).
Proof.
  intros Hmt.
  destruct (mention_holds_code _ _ _ Hmt) as (j & H1 & H2 & H3 & Hocc).
  unfold window.
  assert (0 <= window_start mt <= len content /\
          0 <= window_end content mt <= len content /\
          window_start mt <= Z.of_nat j /\
          Z.of_nat j + Z.of_nat (length code) <= window_end content mt)
    as (Hs & He & Hsj & Hje)
    by (unfold window_start, window_end, len; lia).
  rewrite py_slice_inside by assumption.
  replace (Z.to_nat (window_end content mt - window_start mt))
    with (Z.to_nat (window_end content mt)
          - Z.to_nat (window_start mt))%nat by lia.
  apply (@occurs_at_slice code content j); [exact Hocc | lia | lia].
Qed.

Lemma fallback_holds_code (code content : pystr) :
  contains code content = true -> (length code <= 400)%nat ->
  occurs code
    (py_slice content (fallback_start (str_find content code))
       (fallback_end content (str_find content code))).
Proof.
  intros Hc Hlen.
  destruct (str_find_first _ _ Hc) as (i & -> & Hat & _).
  pose proof (occurs_at_le Hat) as Hle.
  assert (0 <= fallback_start (Z.of_nat i) <= len content /\
          0 <= fallback_end content (Z.of_nat i) <= len content /\
          fallback_start (Z.of_nat i) <= Z.of_nat i /\
          Z.of_nat i + Z.of_nat (length code)
          <= fallback_end content (Z.of_nat i))
    as (Hs & He & Hsj & Hje)
    by (unfold fallback_start, fallback_end, len; lia).
  rewrite py_slice_inside by assumption.
  replace (Z.to_nat (fallback_end content (Z.of_nat i)
                     - fallback_start (Z.of_nat i)))
    with (Z.to_nat (fallback_end content (Z.of_nat i))
          - Z.to_nat (fallback_start (Z.of_nat i)))%nat by lia.
  apply (@occurs_at_slice code content i); [exact Hat | lia | lia].
Qed.

(** Where the findings of a result come from. *)
Lemma finding_sources (self : EANHistoryFinder) (content source : pystr)
  (r : SourceResult) (f : Finding) :
  analyze_content self content source = Some r ->
  In f (findings r) ->
  (exists mt, In mt (mentions (ean self) content) /\
              f = mention_finding content source mt)
  \/ (mentions (ean self) content = [] /\
      contains (ean self) content = true /\
      f = fallback_finding (ean self) content source).
Proof.
  intros Hr Hf. apply analyze_content_some in Hr as (_ & _ & ->).
  cbn [findings] in Hf.
  destruct (pattern_findings_facts (ean self) content source)
    as (_ & Hfrom & _).
  destruct (all_findings_cases (ean self) content source)
    as [(_ & Hall & _) | [(Hm & Hc & Hall) | (_ & _ & Hall)]];
    rewrite Hall in Hf.
  - left. now apply Hfrom.
  - right. destruct Hf as [<- | []]. now repeat split.
  - destruct Hf.
Qed.

Lemma py_slice_length (s : pystr) (a b : Z) :
  0 <= a -> a <= b ->
  Z.of_nat (length (py_slice s a b)) <= b - a.
Proof.
  intros Ha Hab. unfold py_slice, slice_bound.
  replace (a <? 0) with false by (symmetry; apply Z.ltb_ge; lia).
  replace (b <? 0) with false by (symmetry; apply Z.ltb_ge; lia).
  pose proof (firstn_le_length
                (Z.to_nat (Z.min b (len s) - Z.min a (len s)))
                (skipn (Z.to_nat (Z.min a (len s))) s)) as H1.
  pose proof (len_nonneg s).
  rewrite length_firstn. lia.
Qed.

(** X18.  The snippet of every finding is normalized: it has no white
    space at its ends, no white space character but the space and no two
    spaces in a row; it is no longer than its window, hence at most 800
    characters more than the mention, and at most 800 in the fallback. *)
Theorem snippets_normalized (self : EANHistoryFinder)
  (content source : pystr) (r : SourceResult) :
  analyze_content self content source = Some r ->
  Forall
    (fun f =>
       normalized (snippet f) /\
       ((exists mt, In mt (mentions (ean self) content) /\
                    snippet f = clean_snippet (window content mt) /\
                    Z.of_nat (length (snippet f))
                    <= Z.of_nat (m_end mt) - Z.of_nat (m_start mt) + 800)
        \/ (mentions (ean self) content = [] /\
            Z.of_nat (length (snippet f)) <= 800)))
    (findings r).
Proof.
  intros Hr. apply Forall_forall. intros f Hf.
  destruct (finding_sources _ _ _ _ Hr Hf)
    as [(mt & Hmt & ->) | (Hm & Hc & ->)].
  - cbn [mention_finding snippet].
    destruct (clean_snippet_normalized (window content mt)) as [Hn Hl].
    split; [exact Hn|]. left. exists mt. split; [exact Hmt|].
    split; [reflexivity|].
    destruct (mention_holds_code _ _ _ Hmt) as (j & H1 & H2 & H3 & _).
    assert (0 <= window_start mt /\ window_start mt <= window_end content mt
            /\ window_end content mt - window_start mt
               <= Z.of_nat (m_end mt) - Z.of_nat (m_start mt) + 800)
      as (Ha & Hab & Hw)
      by (unfold window_start, window_end, len; lia).
    pose proof (py_slice_length content Ha Hab) as Hs.
    unfold window in *. lia.
  - cbn [fallback_finding snippet].
    match goal with
    | |- normalized (clean_snippet ?ctx) /\ _ =>
        destruct (clean_snippet_normalized ctx) as [Hn Hl];
        split; [exact Hn|]; right; split; [exact Hm|];
        assert (Z.of_nat (length ctx) <= 800) as Hs
    end.
    { destruct (str_find_first _ _ Hc) as (i & -> & Hat & _).
      apply occurs_at_le in Hat.
      assert (0 <= fallback_start (Z.of_nat i) /\
              fallback_start (Z.of_nat i)
              <= fallback_end content (Z.of_nat i) /\
              fallback_end content (Z.of_nat i)
              - fallback_start (Z.of_nat i) <= 800)
        as (Ha & Hab & Hw)
        by (unfold fallback_start, fallback_end, len; lia).
      pose proof (py_slice_length content Ha Hab). lia. }
    lia.
Qed.

Lemma snippets_normalized_witness :
  exists r,
    analyze_content scenario_finder scenario_content scenario_url = Some r /\
    Forall (fun f => normalized (snippet f)) (findings r).
Proof.
  eexists. split; [vm_compute; reflexivity|].
  eapply Forall_impl;
    [|apply (@snippets_normalized scenario_finder scenario_content
               scenario_url); vm_compute; reflexivity].
  intros f [H _]. exact H.
Defined.

(** X19.  When the code is not empty, has no white space and is at most
    400 characters long, the snippet of every finding holds the code. *)
Theorem snippets_hold_code (self : EANHistoryFinder)
  (content source : pystr) (r : SourceResult) :
  ean self <> [] -> spaceless (ean self) ->
  (length (ean self) <= 400)%nat ->
  analyze_content self content source = Some r ->
  Forall (fun f => occurs (ean self) (snippet f)) (findings r).
Proof.
  intros Hne Hw Hlen Hr. apply Forall_forall. intros f Hf.
  destruct (finding_sources _ _ _ _ Hr Hf)
    as [(mt & Hmt & ->) | (Hm & Hc & ->)].
  - cbn [mention_finding snippet].
    apply (@clean_snippet_occurs (ean self) Hne Hw).
    now apply window_holds_code.
  - cbn [fallback_finding snippet].
    apply (@clean_snippet_occurs (ean self) Hne Hw).
    now apply fallback_holds_code.
Qed.

Lemma snippets_hold_code_witness :
  exists r,
    analyze_content (new_finder scenario_code []) glued_content scenario_url
      = Some r /\
    Forall (fun f => occurs scenario_code (snippet f)) (findings r).
Proof.
  eexists. split; [vm_compute; reflexivity|].
  apply (@snippets_hold_code (new_finder scenario_code []) glued_content
           scenario_url).
  - discriminate.
  - vm_compute. repeat constructor.
  - vm_compute. lia.
  - vm_compute. reflexivity.
Defined.
